(** * Multi-client sync engine of time-tracker-4-browser

    A shallow embedding of the conflict-resolution and delivery code:

    - [Merge]: [resolveConflict] of [cdk/lambda/sync/sync.js];
    - [SyncProcessor]: [processRow], [deduplicateRows] and [downloadData]
      of the same file, over a model of the hot table;
    - [OutboundQueue]: [queueForSync] and [processQueue] of
      [BackgroundSyncService];
    - [Transport]: the WebSocket handlers, [startPolling] and
      [scheduleReconnect] of [HybridSyncManager].

    Numbers are JavaScript numbers holding integers; totals, versions and
    epoch milliseconds are modelled by [Z], counters that only go up from
    zero by [nat], both exact below 2^53.  A field that the code reads as
    [x || d] is an [option], [None] standing for [undefined]. *)

From Stdlib Require Import ZArith String Ascii List Bool Lia Sorted Permutation.
From stdpp Require Import base option gmap strings list.
Import ListNotations.

Local Open Scope Z_scope.

(** ** Shared helpers *)

(** [generateTTL(days)] of [utils.js], the clock reading [now] (epoch
    milliseconds) made explicit. *)
Definition generateTTL (now : Z) (days : Z) : Z :=
  now / 1000 + days * 24 * 60 * 60.

(** [generatePK(clientId, host, date)] of [utils.js]. *)
Definition generatePK (clientId host date : string) : string :=
  clientId +:+ "#" +:+ host +:+ "#" +:+ date.

(** [x || 0] on a number that may be undefined. *)
Definition orZero (x : option Z) : Z :=
  match x with
  | Some z => z
  | None => 0
  end.

(** [x || d] on a number that may be undefined: [0] is falsy too. *)
Definition orElse (x : option Z) (d : Z) : Z :=
  match x with
  | Some z => if z =? 0 then d else z
  | None => d
  end.

(** ** The Row Merge Function *)

Module Merge.

(** An item of the hot table, as [processRow] writes it. *)
Record StoredRecord : Type := mkStored {
  PK : string;
  SK : string;
  clientId : string;
  host : string;
  date : string;
  focus : Z;
  time : Z;
  sessionId : string;
  lastModified : Z;
  batchId : option string;
  version : Z;
  ttl : Z;
  conflictResolution : option string
}.

(** The object literal [processRow] passes as [incoming]. *)
Record Incoming : Type := mkIncoming {
  in_clientId : string;
  in_host : string;
  in_date : string;
  in_focus : Z;
  in_time : Z;
  in_sessionId : string;
  in_lastModified : Z;
  in_batchId : option string
}.

Inductive ConflictType : Type :=
| session_conflict
| timestamp_conflict.

Record Overwritten : Type := mkOverwritten {
  ow_focus : Z;
  ow_time : Z;
  ow_lastModified : Z
}.

Record ConflictRecord : Type := mkConflict {
  c_type : ConflictType;
  c_clientId : string;
  c_sessionId : string;
  c_rejected : option bool;
  c_reason : option string;
  c_overwritten : option Overwritten
}.

Record ConflictResult : Type := mkResult {
  resolved : StoredRecord;
  conflicts : list ConflictRecord
}.

(** [resolveConflict(existing, incoming)]; [now] is the clock reading
    [generateTTL] takes.  Each object spread [...existing] is written out
    field by field. *)
Definition resolveConflict (now : Z) (existing : StoredRecord)
    (incoming : Incoming) : ConflictResult :=
  if String.eqb (sessionId existing) (in_sessionId incoming) then
    {| resolved :=
         {| PK := PK existing;
            SK := SK existing;
            clientId := clientId existing;
            host := host existing;
            date := date existing;
            focus := focus existing + in_focus incoming;
            time := time existing + in_time incoming;
            sessionId := sessionId existing;
            lastModified :=
              Z.max (lastModified existing) (in_lastModified incoming);
            batchId := batchId existing;
            version := version existing + 1;
            ttl := generateTTL now 7;
            conflictResolution := conflictResolution existing |};
       conflicts := [] |}
  else if lastModified existing <? in_lastModified incoming then
    {| resolved :=
         {| PK := PK existing;
            SK := SK existing;
            clientId := in_clientId incoming;
            host := host existing;
            date := date existing;
            focus := Z.max (focus existing) (in_focus incoming);
            time := Z.max (time existing) (in_time incoming);
            sessionId := in_sessionId incoming;
            lastModified := in_lastModified incoming;
            batchId := batchId existing;
            version := version existing + 1;
            ttl := generateTTL now 7;
            conflictResolution := Some "max_values" |};
       conflicts :=
         [ {| c_type := session_conflict;
              c_clientId := clientId existing;
              c_sessionId := sessionId existing;
              c_rejected := None;
              c_reason := None;
              c_overwritten :=
                Some {| ow_focus := focus existing;
                        ow_time := time existing;
                        ow_lastModified := lastModified existing |} |} ] |}
  else
    {| resolved := existing;
       conflicts :=
         [ {| c_type := timestamp_conflict;
              c_clientId := in_clientId incoming;
              c_sessionId := in_sessionId incoming;
              c_rejected := Some true;
              c_reason := Some "older_timestamp";
              c_overwritten := None |} ] |}.

End Merge.

(** ** The Sync Processor *)

Module SyncProcessor.
Import Merge.

(** A row of an upload body.  [focus], [time] and [lastModified] are read
    through [||] defaults, so they may be absent. *)
Record WireRow : Type := mkWireRow {
  w_host : string;
  w_date : string;
  w_focus : option Z;
  w_time : option Z;
  w_sessionId : string;
  w_lastModified : option Z
}.

(** The hot table: items under their composite key [(PK, SK)]. *)
Abbreviation Table := (gmap (string * string) StoredRecord).

(** What DynamoDB guarantees of a table: an item sits under the key its own
    [PK] and [SK] attributes spell. *)
Definition table_wf (t : Table) : Prop :=
  forall k item, t !! k = Some item -> k = (PK item, SK item).

(** [GetCommand] with [Key: { PK: pk, SK: 'data' }]. *)
Definition getItem (t : Table) (pk : string) : option StoredRecord :=
  t !! (pk, "data").

(** [PutCommand] under the condition
    [attribute_not_exists(PK) OR version < :newVersion], with [:newVersion]
    bound to the version of the item being written.  The condition is
    evaluated on the item now stored under the new item's key; [None] is
    [ConditionalCheckFailedException]. *)
Definition putItem (t : Table) (item : StoredRecord) : option Table :=
  match t !! (PK item, SK item) with
  | None => Some (<[(PK item, SK item) := item]> t)
  | Some cur =>
      if version cur <? version item
      then Some (<[(PK item, SK item) := item]> t)
      else None
  end.

(** The value [processRow] returns. *)
Record RowResult : Type := mkRowResult {
  r_success : bool;
  r_pk : string;
  r_version : Z;
  r_conflicts : list ConflictRecord
}.

(** The object [processRow] hands to [resolveConflict]. *)
Definition incomingOf (now : Z) (cid : string) (row : WireRow)
    (bid : option string) : Incoming :=
  {| in_clientId := cid;
     in_host := w_host row;
     in_date := w_date row;
     in_focus := orZero (w_focus row);
     in_time := orZero (w_time row);
     in_sessionId := w_sessionId row;
     in_lastModified := orElse (w_lastModified row) now;
     in_batchId := bid |}.

(** The record [processRow] builds when the key is new. *)
Definition newRecord (now : Z) (cid : string) (row : WireRow)
    (bid : option string) : StoredRecord :=
  {| PK := generatePK cid (w_host row) (w_date row);
     SK := "data";
     clientId := cid;
     host := w_host row;
     date := w_date row;
     focus := orZero (w_focus row);
     time := orZero (w_time row);
     sessionId := w_sessionId row;
     lastModified := orElse (w_lastModified row) now;
     batchId := bid;
     version := 1;
     ttl := generateTTL now 7;
     conflictResolution := None |}.

(** The read-and-merge half of [processRow]: [finalData] and [conflicts]. *)
Definition mergeRow (now : Z) (t : Table) (cid : string) (row : WireRow)
    (bid : option string) : StoredRecord * list ConflictRecord :=
  match getItem t (generatePK cid (w_host row) (w_date row)) with
  | Some item =>
      let conflictResult := resolveConflict now item (incomingOf now cid row bid) in
      (resolved conflictResult, conflicts conflictResult)
  | None => (newRecord now cid row bid, [])
  end.

(** [processRow(clientId, row, batchId)].  The function calls itself again
    when the conditional write fails; [fuel] bounds the number of attempts
    the model follows, and [None] means the attempts were used up without
    a result.  [clock n] is what [Date.now()] reads on the attempt that
    has [n] attempts of fuel left.  Archiving to the cold tier swallows its
    own errors and does not touch the hot table; it is left out. *)
Fixpoint processRow (fuel : nat) (clock : nat -> Z) (t : Table)
    (cid : string) (row : WireRow) (bid : option string)
    : option (Table * RowResult) :=
  match fuel with
  | O => None
  | S fuel' =>
      let now := clock fuel' in
      let pk := generatePK cid (w_host row) (w_date row) in
      let '(finalData, conflicts) := mergeRow now t cid row bid in
      match putItem t finalData with
      | Some t' =>
          Some (t', {| r_success := true;
                       r_pk := pk;
                       r_version := version finalData;
                       r_conflicts := conflicts |})
      | None => processRow fuel' clock t cid row bid
      end
  end.
(** *** Upload *)

(** What [handleUpload] reads of the request: the [X-Client-Id] header and
    the [clientId], [rows] and [batchId] of the parsed body.  [rows] is
    [None] when the body has no array under that name. *)
Record UploadRequest : Type := mkUploadRequest {
  u_header : option string;
  u_clientId : option string;
  u_rows : option (list WireRow);
  u_batchId : option string
}.

(** [a || b] on strings that may be undefined: the empty string is falsy. *)
Definition orString (a b : option string) : option string :=
  match a with
  | Some (String _ _) => a
  | _ => match b with
         | Some (String _ _) => b
         | _ => None
         end
  end.

(** The detail of the event [sendUpdateNotification] puts on the bus. *)
Record UpdateNotification : Type := mkUpdateNotification {
  n_clientIds : list string;
  n_clientId : string;
  n_batchId : option string;
  n_updatedRows : nat
}.

(** An entry of [results]: what [processRow] returned, or the entry the
    [catch] of the loop pushes for a row on which it threw, with the
    message of the error and the row. *)
Inductive ResultEntry : Type :=
| Processed (result : RowResult)
| Thrown (error : string) (row : WireRow).

(** [r.success] read as a condition: an entry of the [catch] has none. *)
Definition entrySuccess (entry : ResultEntry) : bool :=
  match entry with
  | Processed result => r_success result
  | Thrown _ _ => false
  end.

(** [r.error] read as a condition: a result of [processRow] has none, and
    an empty message is falsy. *)
Definition entryError (entry : ResultEntry) : bool :=
  match entry with
  | Processed _ => false
  | Thrown EmptyString _ => false
  | Thrown (String _ _) _ => true
  end.

Definition isThrown (entry : ResultEntry) : bool :=
  match entry with
  | Processed _ => false
  | Thrown _ _ => true
  end.

(** The body of the answer to an upload. *)
Record UploadBody : Type := mkUploadBody {
  b_processed : nat;
  b_successful : nat;
  b_failed : nat;
  b_results : list ResultEntry
}.

Inductive UploadResponse : Type :=
| BadRequest (error : string)
| Uploaded (body : UploadBody).

(** [Set.prototype.add]: a set keeps its members in insertion order. *)
Definition setAdd (x : string) (members : list string) : list string :=
  if existsb (String.eqb x) members then members else members ++ [x].

(** The loop of [handleUpload] over the rows, from the row at index [i]
    on: the table is threaded through, an entry is pushed for each row,
    and the client of each conflict joins the affected clients.
    [processRow] throws when the storage service fails on the read, or on
    the write otherwise than on its condition, with the table as it was:
    [thrown i] is the message of the error thrown on the row at index
    [i], if any, and the [catch] of the loop pushes an entry for it.
    [clocks i] is the clock of the attempts made on that row. *)
Fixpoint uploadRows (fuel : nat) (clocks : nat -> nat -> Z)
    (thrown : nat -> option string) (i : nat) (t : Table) (cid : string)
    (bid : option string) (rows : list WireRow) (affected : list string)
    : option (Table * list ResultEntry * list string) :=
  match rows with
  | [] => Some (t, [], affected)
  | row :: rows' =>
      match thrown i with
      | Some error =>
          match
            uploadRows fuel clocks thrown (S i) t cid bid rows' affected
          with
          | None => None
          | Some (t2, results, affected2) =>
              Some (t2, Thrown error row :: results, affected2)
          end
      | None =>
          match processRow fuel (clocks i) t cid row bid with
          | None => None
          | Some (t1, result) =>
              let affected1 :=
                fold_left (fun acc c => setAdd (c_clientId c) acc)
                          (r_conflicts result) affected in
              match
                uploadRows fuel clocks thrown (S i) t1 cid bid rows' affected1
              with
              | None => None
              | Some (t2, results, affected2) =>
                  Some (t2, Processed result :: results, affected2)
              end
          end
      end
  end.

(** [handleUpload(event)]: the table after it, the answer, and the
    notification handed to [sendUpdateNotification], if any.  [fuel]
    bounds the attempts of each row. *)
Definition handleUpload (fuel : nat) (clocks : nat -> nat -> Z)
    (thrown : nat -> option string) (t : Table) (req : UploadRequest)
    : option (Table * UploadResponse * option UpdateNotification) :=
  match orString (u_header req) (u_clientId req) with
  | None => Some (t, BadRequest "Client ID required", None)
  | Some cid =>
      match u_rows req with
      | None => Some (t, BadRequest "Rows array required", None)
      | Some rows =>
          match
            uploadRows fuel clocks thrown 0 t cid (u_batchId req) rows [cid]
          with
          | None => None
          | Some (t', results, affected) =>
              let successful := length (List.filter entrySuccess results) in
              Some (t',
                    Uploaded {| b_processed := length results;
                                b_successful := successful;
                                b_failed :=
                                  length (List.filter entryError results);
                                b_results := results |},
                    if existsb entrySuccess results
                    then Some {| n_clientIds := affected;
                                 n_clientId := cid;
                                 n_batchId := u_batchId req;
                                 n_updatedRows := successful |}
                    else None)
          end
      end
  end.

(** Nothing stored in [t] is lost or taken back in [t']: every item is
    still there, under the same host and date, at a version that is not
    lower. *)
Definition grows (t t' : Table) : Prop :=
  forall k item,
    t !! k = Some item ->
    exists item',
      t' !! k = Some item'
      /\ version item <= version item'
      /\ host item' = host item
      /\ date item' = date item.

(** The keys of the hot table the results among some entries were
    written under. *)
Definition writtenKeys (results : list ResultEntry) : list (string * string) :=
  flat_map (fun entry =>
              match entry with
              | Processed result => [(r_pk result, "data")]
              | Thrown _ _ => []
              end)
           results.

(** *** Download *)

(** A row as [downloadData] handles it.  [dl_lastModified] is what reading
    [row.lastModified] gives, [None] for [undefined]. *)
Record DataRow : Type := mkDataRow {
  dl_host : string;
  dl_date : string;
  dl_focus : Z;
  dl_time : Z;
  dl_lastModified : option Z
}.

(** A record of a monthly archive blob. *)
Record ColdRecord : Type := mkColdRecord {
  cr_host : string;
  cr_date : string;
  cr_focus : Z;
  cr_time : Z;
  cr_lastModified : Z;
  cr_sessionId : string
}.

(** The object literal both tier readers build: [host], [date], [focus] and
    [time], and no [lastModified] property. *)
Definition projectHot (item : StoredRecord) : DataRow :=
  {| dl_host := host item;
     dl_date := date item;
     dl_focus := focus item;
     dl_time := time item;
     dl_lastModified := None |}.

Definition projectCold (record : ColdRecord) : DataRow :=
  {| dl_host := cr_host record;
     dl_date := cr_date record;
     dl_focus := cr_focus record;
     dl_time := cr_time record;
     dl_lastModified := None |}.

(** [a > b] on numbers that may be undefined: a comparison with
    [undefined] is false. *)
Definition jsGt (a b : option Z) : bool :=
  match a, b with
  | Some x, Some y => y <? x
  | _, _ => false
  end.

(** A JavaScript [Map] with string keys: entries in insertion order, [set]
    on a present key replacing the value in place. *)
Fixpoint mapGet (key : string) (m : list (string * DataRow)) : option DataRow :=
  match m with
  | [] => None
  | (k, v) :: m' => if String.eqb k key then Some v else mapGet key m'
  end.

Fixpoint mapSet (key : string) (v : DataRow) (m : list (string * DataRow))
    : list (string * DataRow) :=
  match m with
  | [] => [(key, v)]
  | (k, x) :: m' =>
      if String.eqb k key then (k, v) :: m' else (k, x) :: mapSet key v m'
  end.

Definition rowKey (row : DataRow) : string :=
  dl_host row +:+ "#" +:+ dl_date row.

(** The body of the [forEach] of [deduplicateRows]. *)
Definition dedupStep (m : list (string * DataRow)) (row : DataRow)
    : list (string * DataRow) :=
  match mapGet (rowKey row) m with
  | None => mapSet (rowKey row) row m
  | Some existing =>
      if jsGt (dl_lastModified row) (dl_lastModified existing)
      then mapSet (rowKey row) row m
      else m
  end.

(** [deduplicateRows(rows)]. *)
Definition deduplicateRows (rows : list DataRow) : list DataRow :=
  map snd (fold_left dedupStep rows []).

(** [a.date.localeCompare(b.date)] on dates, which are strings of digits:
    the comparison by character codes. *)
Definition localeCompare (a b : string) : comparison := String.compare a b.

(** [Array.prototype.sort] with the comparator of [downloadData]; the sort
    is stable, so a row goes before the rows of the same date that followed
    it. *)
Fixpoint insertByDate (row : DataRow) (sorted : list DataRow) : list DataRow :=
  match sorted with
  | [] => [row]
  | x :: sorted' =>
      match localeCompare (dl_date row) (dl_date x) with
      | Gt => x :: insertByDate row sorted'
      | _ => row :: sorted
      end
  end.

Definition sortByDate (rows : list DataRow) : list DataRow :=
  foldr insertByDate [] rows.

(** The order of the sort: [a] may stand before [b]. *)
Definition dateLe (a b : DataRow) : Prop :=
  localeCompare (dl_date a) (dl_date b) <> Gt.

(** What the map of [deduplicateRows] holds while the rows go by: one
    entry per key met, each an input row under its own key, and none that
    a row met so far would have replaced. *)
Definition dedupInv (seen : list DataRow) (m : list (string * DataRow)) : Prop :=
  List.NoDup (map fst m)
  /\ (forall k x, In (k, x) m -> k = rowKey x /\ In x seen)
  /\ (forall row, In row seen ->
        exists kept, mapGet (rowKey row) m = Some kept
                     /\ jsGt (dl_lastModified row) (dl_lastModified kept) = false).

(** The first row of each key, in order: what [deduplicateRows] is meant
    to improve on by comparing timestamps.  [seen] holds the keys already
    met. *)
Fixpoint keepFirst (seen : list string) (rows : list DataRow) : list DataRow :=
  match rows with
  | [] => []
  | row :: rows' =>
      if existsb (String.eqb (rowKey row)) seen then keepFirst seen rows'
      else row :: keepFirst (rowKey row :: seen) rows'
  end.

Section Download.

(** [formatDate] of [utils.js] on an instant (epoch milliseconds): the
    digits [YYYYMMDD] of its UTC calendar date. *)
Variable formatDate : Z -> string.

(** The instant [new Date('YYYY-MM-DD')] denotes for a [YYYYMMDD] string;
    [None] is an invalid date, which compares false with everything. *)
Variable dateOfYMD : string -> option Z.

(** [downloadHotData]: [items] are the items of all the pages the query
    returned, in order. *)
Definition downloadHotData (items : list StoredRecord) (startDate endDate : Z)
    : list DataRow :=
  map projectHot
    (List.filter (fun item =>
               String.eqb (SK item) "data"
               && String.leb (formatDate startDate) (date item)
               && String.leb (date item) (formatDate endDate))
            items).

Definition inRange (startDate endDate : Z) (record : ColdRecord) : bool :=
  match dateOfYMD (cr_date record) with
  | Some recordDate => (startDate <=? recordDate) && (recordDate <=? endDate)
  | None => false
  end.

(** [downloadColdData]: [months] holds, for each month of the range whose
    blob could be read, the values of that blob. *)
Definition downloadColdData (months : list (list ColdRecord))
    (startDate endDate : Z) : list DataRow :=
  flat_map (fun monthlyData =>
              map projectCold (List.filter (inRange startDate endDate) monthlyData))
           months.

(** [downloadData], the two storage reads given by what they returned. *)
Definition downloadData (now : Z) (items : list StoredRecord)
    (months : list (list ColdRecord)) (startDate endDate : Z) : list DataRow :=
  let hotData := downloadHotData items startDate endDate in
  let result :=
    if startDate <? now - 7 * 24 * 60 * 60 * 1000
    then hotData ++ downloadColdData months startDate endDate
    else hotData in
  sortByDate (deduplicateRows result).

End Download.

End SyncProcessor.

(** ** The Outbound Queue *)

Module OutboundQueue.

(** [timer.core.Row]: one local aggregate. *)
Record Row : Type := mkRow {
  host : string;
  date : string;
  focus : Z;
  time : Z;
  run : option Z
}.

Record PendingSync : Type := mkPendingSync {
  rows : list Row;
  timestamp : Z;
  retryCount : nat;
  batchId : string
}.

Record SyncStats : Type := mkSyncStats {
  totalSynced : nat;
  totalFailed : nat;
  lastSyncTime : Z;
  pendingCount : nat;
  isOnline : bool
}.

(** The mutable fields of [BackgroundSyncService]. *)
Record BackgroundSyncService : Type := mkService {
  isEnabled : bool;
  syncQueue : list PendingSync;
  isProcessing : bool;
  stats : SyncStats
}.

Definition maxRetries : nat := 3.
Definition batchSize : nat := 50.
Definition maxQueueSize : nat := 1000.

(** [while (this.syncQueue.length > this.maxQueueSize) this.syncQueue.shift()] *)
Fixpoint dropOldest (queue : list PendingSync) : list PendingSync :=
  match queue with
  | [] => []
  | _ :: queue' =>
      if (maxQueueSize <? length queue)%nat then dropOldest queue' else queue
  end.

Definition setPendingCount (n : nat) (st : SyncStats) : SyncStats :=
  {| totalSynced := totalSynced st;
     totalFailed := totalFailed st;
     lastSyncTime := lastSyncTime st;
     pendingCount := n;
     isOnline := isOnline st |}.

(** [queueForSync(rows)].  [now] is the reading of [Date.now()] and [bid]
    the batch id made of it and of a random suffix.  The second component
    tells whether a run of [processQueue] was scheduled. *)
Definition queueForSync (now : Z) (bid : string) (rs : list Row)
    (svc : BackgroundSyncService) : BackgroundSyncService * bool :=
  if negb (isEnabled svc) || (length rs =? 0)%nat then (svc, false)
  else
    let pendingSync :=
      {| rows := rs; timestamp := now; retryCount := 0; batchId := bid |} in
    let pushed := syncQueue svc ++ [pendingSync] in
    ({| isEnabled := isEnabled svc;
        syncQueue := dropOldest pushed;
        isProcessing := isProcessing svc;
        stats := setPendingCount (length pushed) (stats svc) |},
     isOnline (stats svc) && negb (isProcessing svc)).

(** [Math.ceil(this.batchSize / 10)] *)
Definition maxBatches : nat := ((batchSize + 9) / 10)%nat.

Definition bumpRetry (batch : PendingSync) : PendingSync :=
  {| rows := rows batch;
     timestamp := timestamp batch;
     retryCount := S (retryCount batch);
     batchId := batchId batch |}.

Definition addSynced (now : Z) (n : nat) (st : SyncStats) : SyncStats :=
  {| totalSynced := totalSynced st + n;
     totalFailed := totalFailed st;
     lastSyncTime := now;
     pendingCount := pendingCount st;
     isOnline := isOnline st |}.

Definition addFailed (n : nat) (st : SyncStats) : SyncStats :=
  {| totalSynced := totalSynced st;
     totalFailed := totalFailed st + n;
     lastSyncTime := lastSyncTime st;
     pendingCount := pendingCount st;
     isOnline := isOnline st |}.

(** What one run of the [while] loop of [processQueue] leaves: the queue,
    the counters, and the batches [syncBatch] was called on, in order. *)
Record LoopResult : Type := mkLoopResult {
  lr_queue : list PendingSync;
  lr_stats : SyncStats;
  lr_calls : list PendingSync
}.

Definition logCall (batch : PendingSync) (r : LoopResult) : LoopResult :=
  {| lr_queue := lr_queue r;
     lr_stats := lr_stats r;
     lr_calls := batch :: lr_calls r |}.

(** The [while] loop of [processQueue].  [syncBatch n batch] tells whether
    the [n]-th delivery of the cycle, made on [batch], succeeds ([false]:
    it throws); [now] is the reading of [Date.now()].  Every turn either
    leaves the loop or drops the head of the queue, so the loop is a
    recursion on the queue.  No [queueForSync] runs during the cycle. *)
Fixpoint processLoop (syncBatch : nat -> PendingSync -> bool) (now : Z)
    (attempt processedCount : nat) (queue : list PendingSync)
    (st : SyncStats) : LoopResult :=
  match queue with
  | [] => {| lr_queue := []; lr_stats := st; lr_calls := [] |}
  | batch :: rest =>
      if (processedCount <? maxBatches)%nat then
        if syncBatch attempt batch then
          logCall batch
            (processLoop syncBatch now (S attempt) (S processedCount) rest
               (addSynced now (length (rows batch)) st))
        else if (maxRetries <=? retryCount (bumpRetry batch))%nat then
          logCall batch
            (processLoop syncBatch now (S attempt) processedCount rest
               (addFailed (length (rows batch)) st))
        else
          {| lr_queue := rest ++ [bumpRetry batch];
             lr_stats := st;
             lr_calls := [batch] |}
      else {| lr_queue := queue; lr_stats := st; lr_calls := [] |}
  end.

(** [processQueue()], with the calls it made to [syncBatch]. *)
Definition processQueue (syncBatch : nat -> PendingSync -> bool) (now : Z)
    (svc : BackgroundSyncService) : BackgroundSyncService * list PendingSync :=
  if isProcessing svc || (length (syncQueue svc) =? 0)%nat
     || negb (isOnline (stats svc))
  then (svc, [])
  else
    let r := processLoop syncBatch now 0 0 (syncQueue svc) (stats svc) in
    ({| isEnabled := isEnabled svc;
        syncQueue := lr_queue r;
        isProcessing := false;
        stats := setPendingCount (length (lr_queue r)) (lr_stats r) |},
     lr_calls r).





(** Every batch of the queue is below the retry ceiling and no two share
    an id. *)
Definition queue_ok (queue : list PendingSync) : Prop :=
  List.NoDup (map batchId queue)
  /\ Forall (fun batch => (retryCount batch < maxRetries)%nat) queue.

(** The rows the batches of a queue hold. *)
Definition pendingRows (queue : list PendingSync) : nat :=
  fold_right (fun batch n => (length (rows batch) + n)%nat) 0%nat queue.

(** *** Rows queued during a cycle *)

(** A call of [queueForSync] that runs while a delivery is awaited: the
    reading of the clock, the batch id and the rows. *)
Record Arrival : Type := mkArrival {
  ar_now : Z;
  ar_bid : string;
  ar_rows : list Row
}.

Definition enqueueAll (arrivals : list Arrival) (svc : BackgroundSyncService)
    : BackgroundSyncService :=
  fold_left
    (fun s arrival =>
       fst (queueForSync (ar_now arrival) (ar_bid arrival) (ar_rows arrival) s))
    arrivals svc.

(** The rows of some arrivals. *)
Definition arrivedRows (arrivals : list Arrival) : nat :=
  fold_right (fun arrival n => (length (ar_rows arrival) + n)%nat) 0%nat
             arrivals.

Definition withQueue (queue : list PendingSync) (st : SyncStats)
    (svc : BackgroundSyncService) : BackgroundSyncService :=
  {| isEnabled := isEnabled svc;
     syncQueue := queue;
     isProcessing := isProcessing svc;
     stats := st |}.

(** The [while] loop of [processQueue] with the calls of [queueForSync]
    that run while its deliveries are awaited: [arrivals] holds, for each
    delivery in turn, the calls made during it; when it is used up nothing
    more arrives and the loop is [processLoop].  A delivery is made on
    the head of the queue as it is before the [await]; the [shift()]
    after it takes the head of the queue as it is then.  Nothing else
    touches the service during the cycle. *)
Fixpoint processLoopWith (syncBatch : nat -> PendingSync -> bool) (now : Z)
    (arrivals : list (list Arrival)) (attempt processedCount : nat)
    (svc : BackgroundSyncService) : LoopResult :=
  match arrivals with
  | [] =>
      processLoop syncBatch now attempt processedCount (syncQueue svc)
        (stats svc)
  | during :: arrivals' =>
      match syncQueue svc with
      | [] => {| lr_queue := []; lr_stats := stats svc; lr_calls := [] |}
      | batch :: _ =>
          if (processedCount <? maxBatches)%nat then
            let svc1 := enqueueAll during svc in
            let rest := tl (syncQueue svc1) in
            if syncBatch attempt batch then
              logCall batch
                (processLoopWith syncBatch now arrivals' (S attempt)
                   (S processedCount)
                   (withQueue rest
                      (addSynced now (length (rows batch)) (stats svc1))
                      svc1))
            else if (maxRetries <=? retryCount (bumpRetry batch))%nat then
              logCall batch
                (processLoopWith syncBatch now arrivals' (S attempt)
                   processedCount
                   (withQueue rest
                      (addFailed (length (rows batch)) (stats svc1))
                      svc1))
            else
              {| lr_queue := rest ++ [bumpRetry batch];
                 lr_stats := stats svc1;
                 lr_calls := [batch] |}
          else
            {| lr_queue := syncQueue svc; lr_stats := stats svc;
               lr_calls := [] |}
      end
  end.

(** [processQueue()] with the calls of [queueForSync] made during its
    deliveries. *)
Definition processQueueWith (syncBatch : nat -> PendingSync -> bool) (now : Z)
    (arrivals : list (list Arrival)) (svc : BackgroundSyncService)
    : BackgroundSyncService * list PendingSync :=
  if isProcessing svc || (length (syncQueue svc) =? 0)%nat
     || negb (isOnline (stats svc))
  then (svc, [])
  else
    let working :=
      {| isEnabled := isEnabled svc;
         syncQueue := syncQueue svc;
         isProcessing := true;
         stats := stats svc |} in
    let r := processLoopWith syncBatch now arrivals 0 0 working in
    ({| isEnabled := isEnabled svc;
        syncQueue := lr_queue r;
        isProcessing := false;
        stats := setPendingCount (length (lr_queue r)) (lr_stats r) |},
     lr_calls r).

(** *** Persistence of the queue *)

(** What is kept under [background_sync_pending] in the local storage. *)
Record PendingData : Type := mkPendingData {
  pd_queue : list PendingSync;
  pd_timestamp : Z
}.

(** [savePendingSyncs()]: the storage after it.  An empty queue is not
    saved, and a write that fails is logged. *)
Definition savePendingSyncs (now : Z) (setFails : bool)
    (svc : BackgroundSyncService) (storage : option PendingData)
    : option PendingData :=
  match syncQueue svc with
  | [] => storage
  | _ :: _ =>
      if setFails then storage
      else Some {| pd_queue := syncQueue svc; pd_timestamp := now |}
  end.

(** An item is restored if it is less than an hour old. *)
Definition isRecent (now : Z) (item : PendingSync) : bool :=
  now - 60 * 60 * 1000 <? timestamp item.

(** [loadPendingSyncs()]: the service and the storage after it. *)
Definition loadPendingSyncs (now : Z) (svc : BackgroundSyncService)
    (storage : option PendingData)
    : BackgroundSyncService * option PendingData :=
  match storage with
  | None => (svc, None)
  | Some pendingData =>
      let recentItems := List.filter (isRecent now) (pd_queue pendingData) in
      ({| isEnabled := isEnabled svc;
          syncQueue := recentItems;
          isProcessing := isProcessing svc;
          stats := setPendingCount (length recentItems) (stats svc) |},
       None)
  end.

(** *** Rows pushed by other clients *)

(** [timer.backup.Row], as far as [mergeRemoteData] reads it. *)
Record RemoteRow : Type := mkRemoteRow {
  rr_cid : string;
  rr_host : string;
  rr_date : string;
  rr_focus : option Z;
  rr_time : option Z
}.

(** [timer.core.Result] without the optional run time. *)
Record Result : Type := mkResult {
  res_focus : Z;
  res_time : Z
}.

(** Modelled from the spec: the local key-value accumulator
    ([statDatabase], not among the sources), which the specification
    describes by its operations [get(host, date)] and
    [accumulate(host, date, delta)].  It holds a result per host and
    date; a key never written reads as zero. *)
Abbreviation StatDatabase := (gmap (string * string) Result).

Definition dbGet (db : StatDatabase) (host date : string) : Result :=
  match db !! (host, date) with
  | Some result => result
  | None => {| res_focus := 0; res_time := 0 |}
  end.

Definition dbAccumulate (db : StatDatabase) (host date : string)
    (delta : Result) : StatDatabase :=
  let existing := dbGet db host date in
  <[(host, date) := {| res_focus := res_focus existing + res_focus delta;
                       res_time := res_time existing + res_time delta |}]> db.

(** The body of the loop of [mergeRemoteData] for one row; [localClientId]
    is the id of this client. *)
Definition mergeRemoteRow (localClientId : string) (db : StatDatabase)
    (remoteRow : RemoteRow) : StatDatabase :=
  if String.eqb (rr_cid remoteRow) localClientId then db
  else
    let existing := dbGet db (rr_host remoteRow) (rr_date remoteRow) in
    let mergedFocus := Z.max (res_focus existing) (orZero (rr_focus remoteRow)) in
    let mergedTime := Z.max (res_time existing) (orZero (rr_time remoteRow)) in
    if negb (mergedFocus =? res_focus existing)
       || negb (mergedTime =? res_time existing)
    then dbAccumulate db (rr_host remoteRow) (rr_date remoteRow)
           {| res_focus := mergedFocus - res_focus existing;
              res_time := mergedTime - res_time existing |}
    else db.

(** [mergeRemoteData(remoteRows)] *)
Definition mergeRemoteData (localClientId : string) (db : StatDatabase)
    (remoteRows : list RemoteRow) : StatDatabase :=
  fold_left (mergeRemoteRow localClientId) remoteRows db.

(** The local totals of a key are at least those of a remote row. *)
Definition covers (db : StatDatabase) (remoteRow : RemoteRow) : Prop :=
  orZero (rr_focus remoteRow)
    <= res_focus (dbGet db (rr_host remoteRow) (rr_date remoteRow))
  /\ orZero (rr_time remoteRow)
     <= res_time (dbGet db (rr_host remoteRow) (rr_date remoteRow)).

End OutboundQueue.

(** ** The Transport Manager *)

Module Transport.

Inductive WebSocketConnectionState : Type :=
| disconnected
| connecting
| connected
| error.

(** The payload of a [sync-status] event. *)
Record SyncStatus : Type := mkSyncStatus {
  st_connected : bool;
  st_method : string;
  st_status : option string
}.

Inductive Callback : Type :=
| PollCallback
| ReconnectCallback
| ConnectTimeoutCallback.

(** What the manager does to the outside: timers set and cleared, sockets
    opened and closed, status events emitted.  A timer or a socket is known
    by the position of the effect that made it. *)
Inductive Effect : Type :=
| SetInterval (cb : Callback) (ms : Z)
| ClearInterval (handle : nat)
| SetTimeout (cb : Callback) (ms : Z)
| ClearTimeout (handle : nat)
| NewWebSocket
| CloseWebSocket (handle : nat)
| Emit (status : SyncStatus).

(** The mutable fields of [HybridSyncManager], and the effects so far. *)
Record HybridSyncManager : Type := mkManager {
  websocket : option nat;
  pollInterval : option nat;
  reconnectTimeout : option nat;
  backoffMultiplier : Z;
  connectionState : WebSocketConnectionState;
  isEnabled : bool;
  clientId : option string;
  effects : list Effect
}.

Definition maxBackoffMs : Z := 60000.
Definition baseBackoffMs : Z := 1000.
Definition pollIntervalMs : Z := 30000.

(** A manager as the constructor leaves it, once [init] has read the
    client id. *)
Definition initial (cid : option string) : HybridSyncManager :=
  {| websocket := None;
     pollInterval := None;
     reconnectTimeout := None;
     backoffMultiplier := 1;
     connectionState := disconnected;
     isEnabled := false;
     clientId := cid;
     effects := [] |}.

Definition perform (e : Effect) (m : HybridSyncManager) : HybridSyncManager :=
  {| websocket := websocket m;
     pollInterval := pollInterval m;
     reconnectTimeout := reconnectTimeout m;
     backoffMultiplier := backoffMultiplier m;
     connectionState := connectionState m;
     isEnabled := isEnabled m;
     clientId := clientId m;
     effects := effects m ++ [e] |}.

(** [this.emit('sync-status', ...)] *)
Definition emit (connected_ : bool) (method : string) (status : option string)
    (m : HybridSyncManager) : HybridSyncManager :=
  perform (Emit {| st_connected := connected_;
                   st_method := method;
                   st_status := status |}) m.

Definition setState (s : WebSocketConnectionState) (m : HybridSyncManager)
    : HybridSyncManager :=
  {| websocket := websocket m;
     pollInterval := pollInterval m;
     reconnectTimeout := reconnectTimeout m;
     backoffMultiplier := backoffMultiplier m;
     connectionState := s;
     isEnabled := isEnabled m;
     clientId := clientId m;
     effects := effects m |}.

Definition setWebsocket (w : option nat) (m : HybridSyncManager)
    : HybridSyncManager :=
  {| websocket := w;
     pollInterval := pollInterval m;
     reconnectTimeout := reconnectTimeout m;
     backoffMultiplier := backoffMultiplier m;
     connectionState := connectionState m;
     isEnabled := isEnabled m;
     clientId := clientId m;
     effects := effects m |}.

Definition setPollInterval (h : option nat) (m : HybridSyncManager)
    : HybridSyncManager :=
  {| websocket := websocket m;
     pollInterval := h;
     reconnectTimeout := reconnectTimeout m;
     backoffMultiplier := backoffMultiplier m;
     connectionState := connectionState m;
     isEnabled := isEnabled m;
     clientId := clientId m;
     effects := effects m |}.

Definition setReconnectTimeout (h : option nat) (m : HybridSyncManager)
    : HybridSyncManager :=
  {| websocket := websocket m;
     pollInterval := pollInterval m;
     reconnectTimeout := h;
     backoffMultiplier := backoffMultiplier m;
     connectionState := connectionState m;
     isEnabled := isEnabled m;
     clientId := clientId m;
     effects := effects m |}.

Definition setBackoffMultiplier (k : Z) (m : HybridSyncManager)
    : HybridSyncManager :=
  {| websocket := websocket m;
     pollInterval := pollInterval m;
     reconnectTimeout := reconnectTimeout m;
     backoffMultiplier := k;
     connectionState := connectionState m;
     isEnabled := isEnabled m;
     clientId := clientId m;
     effects := effects m |}.

Definition setIsEnabled (b : bool) (m : HybridSyncManager)
    : HybridSyncManager :=
  {| websocket := websocket m;
     pollInterval := pollInterval m;
     reconnectTimeout := reconnectTimeout m;
     backoffMultiplier := backoffMultiplier m;
     connectionState := connectionState m;
     isEnabled := b;
     clientId := clientId m;
     effects := effects m |}.

(** [startPolling()] *)
Definition startPolling (m : HybridSyncManager) : HybridSyncManager :=
  match pollInterval m with
  | Some _ => m
  | None =>
      perform (SetInterval PollCallback pollIntervalMs)
        (setPollInterval (Some (length (effects m))) m)
  end.

(** [stopPolling()] *)
Definition stopPolling (m : HybridSyncManager) : HybridSyncManager :=
  match pollInterval m with
  | Some h => perform (ClearInterval h) (setPollInterval None m)
  | None => m
  end.

(** [clearReconnectTimeout()] *)
Definition clearReconnectTimeout (m : HybridSyncManager) : HybridSyncManager :=
  match reconnectTimeout m with
  | Some h => perform (ClearTimeout h) (setReconnectTimeout None m)
  | None => m
  end.

(** [closeWebSocket()] *)
Definition closeWebSocket (m : HybridSyncManager) : HybridSyncManager :=
  match websocket m with
  | Some h => perform (CloseWebSocket h) (setWebsocket None m)
  | None => m
  end.

(** [scheduleReconnect()], up to the call of [setTimeout]. *)
Definition scheduleReconnect (m : HybridSyncManager) : HybridSyncManager :=
  if negb (isEnabled m) then m
  else
    let m1 := clearReconnectTimeout m in
    let delay :=
      Z.min (baseBackoffMs * backoffMultiplier m1) maxBackoffMs in
    let m2 := setBackoffMultiplier (Z.min (backoffMultiplier m1 * 2) 60) m1 in
    perform (SetTimeout ReconnectCallback delay)
      (setReconnectTimeout (Some (length (effects m2))) m2).

(** [websocket.onopen] *)
Definition onopen (m : HybridSyncManager) : HybridSyncManager :=
  emit true "websocket" None
    (stopPolling (setBackoffMultiplier 1 (setState connected m))).

(** [websocket.onclose] *)
Definition onclose (m : HybridSyncManager) : HybridSyncManager :=
  emit false "polling" None
    (scheduleReconnect
       (startPolling (setWebsocket None (setState disconnected m)))).

(** [websocket.onerror] *)
Definition onerror (m : HybridSyncManager) : HybridSyncManager :=
  emit false "error" None (setState error m).

(** A configured endpoint is a non-empty string. *)
Definition configured (endpoint : option string) : bool :=
  match endpoint with
  | Some (String _ _) => true
  | _ => false
  end.

(** [this.clientId] read as a condition: [init] stores [null] for an empty
    id. *)
Definition hasClientId (m : HybridSyncManager) : bool :=
  match clientId m with
  | Some (String _ _) => true
  | _ => false
  end.

(** [connectWebSocket()], with the endpoint the options hold.  The second
    component tells whether the call threw. *)
Definition connectWebSocket (endpoint : option string) (m : HybridSyncManager)
    : HybridSyncManager * bool :=
  if negb (hasClientId m) then (m, true)
  else if negb (configured endpoint) then (m, true)
  else
    let m1 := emit false "websocket" (Some "connecting")
                (setState connecting m) in
    let m2 := perform NewWebSocket
                (setWebsocket (Some (length (effects m1))) m1) in
    (perform (SetTimeout ConnectTimeoutCallback 10000) m2, false).

(** The callback [scheduleReconnect] hands to [setTimeout]. *)
Definition reconnectCallback (endpoint : option string) (m : HybridSyncManager)
    : HybridSyncManager :=
  if isEnabled m && hasClientId m then
    let '(m1, threw) := connectWebSocket endpoint m in
    if threw then scheduleReconnect m1 else m1
  else m.

(** The callback of the polling interval, after [performPollSync]: [closed]
    tells whether the socket, if any, is in the [CLOSED] state and [lucky]
    whether [Math.random() < 0.1]. *)
Definition pollCallback (closed lucky : bool) (endpoint : option string)
    (m : HybridSyncManager) : HybridSyncManager :=
  let noSocket := match websocket m with Some _ => false | None => true end in
  if (noSocket || closed) && lucky
  then fst (connectWebSocket endpoint m)
  else m.

(** [stopSync()] *)
Definition stopSync (m : HybridSyncManager) : HybridSyncManager :=
  emit false "none" None
    (setState disconnected
       (clearReconnectTimeout (stopPolling (closeWebSocket m)))).

(** [startSync()] *)
Definition startSync (endpoint : option string) (m : HybridSyncManager)
    : HybridSyncManager :=
  if negb (isEnabled m) || negb (hasClientId m) then m
  else
    let '(m1, threw) := connectWebSocket endpoint m in
    if threw then startPolling m1 else m1.

(** [setEnabled(enabled)] *)
Definition setEnabled (enabled : bool) (endpoint : option string)
    (m : HybridSyncManager) : HybridSyncManager :=
  let m1 := setIsEnabled enabled m in
  if enabled && hasClientId m1 then startSync endpoint m1 else stopSync m1.

(** What can happen to a manager. *)
Inductive Event : Type :=
| OnOpen
| OnClose
| OnError
| ReconnectTimer (endpoint : option string)
| PollTick (closed lucky : bool) (endpoint : option string)
| SetEnabled (enabled : bool) (endpoint : option string).

Definition handle (m : HybridSyncManager) (ev : Event) : HybridSyncManager :=
  match ev with
  | OnOpen => onopen m
  | OnClose => onclose m
  | OnError => onerror m
  | ReconnectTimer endpoint => reconnectCallback endpoint m
  | PollTick closed lucky endpoint => pollCallback closed lucky endpoint m
  | SetEnabled enabled endpoint => setEnabled enabled endpoint m
  end.

Definition run (evs : list Event) (m : HybridSyncManager) : HybridSyncManager :=
  fold_left handle evs m.

(** The delays of the reconnect timers among some effects, in order. *)
Fixpoint reconnectDelays (es : list Effect) : list Z :=
  match es with
  | [] => []
  | SetTimeout ReconnectCallback ms :: es' => ms :: reconnectDelays es'
  | _ :: es' => reconnectDelays es'
  end.

(** The polling intervals set among some effects. *)
Fixpoint pollingStarts (es : list Effect) : nat :=
  match es with
  | [] => 0
  | SetInterval PollCallback _ :: es' => S (pollingStarts es')
  | _ :: es' => pollingStarts es'
  end.

(** The effects [m'] has performed beyond those of [m]. *)
Definition newEffects (m m' : HybridSyncManager) : list Effect :=
  drop (length (effects m)) (effects m').

Definition isOpen (ev : Event) : bool :=
  match ev with
  | OnOpen => true
  | _ => false
  end.

(** The back-off sequence the specification gives: the delay of attempt
    [i] is [min(base * 2^i, maxBackoff)]; its first [n] terms. *)
Definition backoffSchedule (n : nat) : list Z :=
  map (fun i => Z.min (baseBackoffMs * 2 ^ Z.of_nat i) maxBackoffMs) (seq 0 n).

(** [m'] comes from [m] by performing more effects, among which reconnect
    timers of the delays [ds]. *)
Definition extends (m m' : HybridSyncManager) (ds : list Z) : Prop :=
  exists es, effects m' = effects m ++ es /\ reconnectDelays es = ds.

(** From [m] to [m'] no reconnect was scheduled and the multiplier was
    left alone. *)
Definition quiet (m m' : HybridSyncManager) : Prop :=
  extends m m' [] /\ backoffMultiplier m' = backoffMultiplier m.

(** From [m] to [m'] at most one reconnect was scheduled, with the delay
    and the new multiplier [scheduleReconnect] computes. *)
Definition backoffStep (m m' : HybridSyncManager) : Prop :=
  quiet m m'
  \/ (extends m m' [Z.min (baseBackoffMs * backoffMultiplier m) maxBackoffMs]
      /\ backoffMultiplier m' = Z.min (backoffMultiplier m * 2) 60).

(** Since [m0] the reconnect timers followed the back-off sequence for [n]
    attempts, and the multiplier is the one of attempt [n]. *)
Definition onSchedule (m0 m : HybridSyncManager) (n : nat) : Prop :=
  extends m0 m (backoffSchedule n)
  /\ backoffMultiplier m = Z.min (2 ^ Z.of_nat n) 60.

(** The polling intervals cleared among some effects. *)
Fixpoint intervalClears (es : list Effect) : nat :=
  match es with
  | [] => 0
  | ClearInterval _ :: es' => S (intervalClears es')
  | _ :: es' => intervalClears es'
  end.

(** The timeouts cleared among some effects; only reconnect timers are
    ever cleared. *)
Fixpoint timeoutClears (es : list Effect) : nat :=
  match es with
  | [] => 0
  | ClearTimeout _ :: es' => S (timeoutClears es')
  | _ :: es' => timeoutClears es'
  end.

(** 1 for a handle that is set, 0 for [null]. *)
Definition held (handle : option nat) : nat :=
  match handle with
  | Some _ => 1
  | None => 0
  end.

(** Every polling interval and every reconnect timer that was set has
    been cleared, but for the one the manager holds. *)
Definition timers_balanced (m : HybridSyncManager) : Prop :=
  pollingStarts (effects m)
  = (intervalClears (effects m) + held (pollInterval m))%nat
  /\ length (reconnectDelays (effects m))
     = (timeoutClears (effects m) + held (reconnectTimeout m))%nat.

(** The multiplier and the reconnect delays so far are within bounds. *)
Definition backoff_bounded (m : HybridSyncManager) : Prop :=
  1 <= backoffMultiplier m <= 60
  /\ Forall (fun delay => baseBackoffMs <= delay <= maxBackoffMs)
            (reconnectDelays (effects m)).

End Transport.

(** Closes the goal that a setter of a field other than the multiplier
    is quiet. *)
Ltac quiet_setter :=
  split; [exists []; cbn; now rewrite app_nil_r | reflexivity].
(** ** The archive *)

Module Archive.
Import Merge.

(** A JavaScript object used as a dictionary: the properties in insertion
    order, which is the order of [Object.values] and of [JSON.stringify]
    for keys that are not array indices.  The keys here contain a [_] and
    so are no array indices; a key that names a property of
    [Object.prototype] is outside the model. *)
Fixpoint objGet {A : Type} (key : string) (o : list (string * A)) : option A :=
  match o with
  | [] => None
  | (k, v) :: o' => if String.eqb k key then Some v else objGet key o'
  end.

Fixpoint objSet {A : Type} (key : string) (v : A) (o : list (string * A))
    : list (string * A) :=
  match o with
  | [] => [(key, v)]
  | (k, x) :: o' =>
      if String.eqb k key then (k, v) :: o' else (k, x) :: objSet key v o'
  end.

(** A record of a monthly blob.  [a_archivedAt] is set by the sweep and
    absent from the records [processRow] archives. *)
Record ArchivedRecord : Type := mkArchivedRecord {
  a_host : string;
  a_date : string;
  a_focus : Z;
  a_time : Z;
  a_lastModified : Z;
  a_sessionId : string;
  a_archivedAt : option Z
}.

(** A monthly blob, decompressed: the records under their keys. *)
Abbreviation Blob := (list (string * ArchivedRecord)).

(** [`${date}_${host}`], the key of a record in its blob. *)
Definition recordKey (date host : string) : string :=
  date +:+ "_" +:+ host.

(** [generateMonthlyS3Key(clientId, yearMonth)] of [utils.js]. *)
Definition generateMonthlyS3Key (clientId yearMonth : string) : string :=
  "clients/" +:+ clientId +:+ "/monthly/" +:+ yearMonth +:+ ".json.gz".

(** [date.substring(0, 6)] *)
Definition yearMonthOf (date : string) : string := String.substring 0 6 date.

(** The record [archiveMonthData] of [archive.js] writes for an item;
    [now] is the reading of [Date.now()]. *)
Definition sweptRecord (now : Z) (item : StoredRecord) : ArchivedRecord :=
  {| a_host := host item;
     a_date := date item;
     a_focus := focus item;
     a_time := time item;
     a_lastModified := lastModified item;
     a_sessionId := sessionId item;
     a_archivedAt := Some now |}.

(** The record [archiveToS3] of [sync.js] writes for an item. *)
Definition uploadedRecord (data : StoredRecord) : ArchivedRecord :=
  {| a_host := host data;
     a_date := date data;
     a_focus := focus data;
     a_time := time data;
     a_lastModified := lastModified data;
     a_sessionId := sessionId data;
     a_archivedAt := None |}.

(** The [forEach] of [archiveMonthData]: each item is written into the
    blob under its key, over what was there.  [Date.now()] is read once
    per item: [clock i] is the reading for the item at index [i], and
    [mergeItemsFrom] goes on from index [i]. *)
Fixpoint mergeItemsFrom (clock : nat -> Z) (i : nat) (existingData : Blob)
    (items : list StoredRecord) : Blob :=
  match items with
  | [] => existingData
  | item :: items' =>
      mergeItemsFrom clock (S i)
        (objSet (recordKey (date item) (host item))
                (sweptRecord (clock i) item) existingData)
        items'
  end.

Definition mergeItems (clock : nat -> Z) (existingData : Blob)
    (items : list StoredRecord) : Blob :=
  mergeItemsFrom clock 0 existingData items.

(** The bucket: the decompressed blob under each object key.  Compressing
    and decompressing a blob gives the blob back. *)
Abbreviation Bucket := (gmap string Blob).

(** How the read of the existing blob went: an error other than a missing
    key is logged, and the blob is taken as empty all the same. *)
Definition readBlob (readFails : bool) (bucket : Bucket) (key : string) : Blob :=
  if readFails then []
  else match bucket !! key with
       | Some blob => blob
       | None => []
       end.

(** [archiveMonthData(clientId, yearMonth, items)] of [archive.js];
    [None] when the write fails, which the function rethrows. *)
Definition archiveMonthData (clock : nat -> Z) (readFails writeFails : bool)
    (bucket : Bucket) (clientId yearMonth : string)
    (items : list StoredRecord) : option Bucket :=
  let s3Key := generateMonthlyS3Key clientId yearMonth in
  let existingData := readBlob readFails bucket s3Key in
  if writeFails then None
  else Some (<[s3Key := mergeItems clock existingData items]> bucket).

(** [archiveToS3(clientId, data)] of [sync.js]: every error is caught, so
    a failed write leaves the bucket as it was. *)
Definition archiveToS3 (readFails writeFails : bool) (bucket : Bucket)
    (clientId : string) (data : StoredRecord) : Bucket :=
  let monthlyKey := generateMonthlyS3Key clientId (yearMonthOf (date data)) in
  let monthlyData := readBlob readFails bucket monthlyKey in
  if writeFails then bucket
  else
    <[monthlyKey :=
        objSet (recordKey (date data) (host data)) (uploadedRecord data)
               monthlyData]> bucket.




(** The batches of [deleteArchivedItems]: [items.slice(i, i + 25)] for
    [i = 0, 25, ...] below the length.  [fuel] bounds the turns of the
    loop; the length of [items] is enough. *)
Fixpoint batchesFrom {A : Type} (fuel : nat) (items : list A) : list (list A) :=
  match fuel with
  | O => []
  | S fuel' =>
      match items with
      | [] => []
      | _ :: _ => take 25 items :: batchesFrom fuel' (drop 25 items)
      end
  end.

Definition deleteBatches {A : Type} (items : list A) : list (list A) :=
  batchesFrom (length items) items.

(** What [downloadColdData] of [sync.js] reads of a blob:
    [Object.values(monthlyData)]. *)
Definition coldRecordOf (record : ArchivedRecord) : SyncProcessor.ColdRecord :=
  {| SyncProcessor.cr_host := a_host record;
     SyncProcessor.cr_date := a_date record;
     SyncProcessor.cr_focus := a_focus record;
     SyncProcessor.cr_time := a_time record;
     SyncProcessor.cr_lastModified := a_lastModified record;
     SyncProcessor.cr_sessionId := a_sessionId record |}.

Definition blobValues (blob : Blob) : list SyncProcessor.ColdRecord :=
  map (fun entry => coldRecordOf (snd entry)) blob.

(** The item written last under [key] among [items], if any. *)
Definition lastWritten (key : string) (items : list StoredRecord)
    : option StoredRecord :=
  List.find (fun item => String.eqb (recordKey (date item) (host item)) key)
            (rev items).

(** An object has each key once. *)
Definition obj_wf {A : Type} (o : list (string * A)) : Prop :=
  List.NoDup (map fst o).

(** A record, and a blob, without the time of archiving. *)
Definition unstamp (record : ArchivedRecord) : ArchivedRecord :=
  {| a_host := a_host record;
     a_date := a_date record;
     a_focus := a_focus record;
     a_time := a_time record;
     a_lastModified := a_lastModified record;
     a_sessionId := a_sessionId record;
     a_archivedAt := None |}.

Definition unstamped (blob : Blob) : Blob :=
  map (fun entry => (fst entry, unstamp (snd entry))) blob.

End Archive.
(** ** Connections and notification *)

Module Connections.

(** An item of the connections table. *)
Record ConnectionRecord : Type := mkConnection {
  connectionId : string;
  clientId : string;
  connectedAt : Z;
  ttl : Z
}.

(** The connections table, keyed by connection id. *)
Abbreviation ConnTable := (gmap string ConnectionRecord).

(** [handleConnect(connectionId, event)] of [websocket.js]: the table after
    it and the status code.  [query] and [header] are the two places the
    client id is looked for; [putFails] tells whether the write throws;
    [now] is the reading of [Date.now()] for [connectedAt] and [now'] the
    one [generateTTL] takes after it. *)
Definition handleConnect (now now' : Z) (putFails : bool) (t : ConnTable)
    (conn : string) (query header : option string) : ConnTable * Z :=
  match SyncProcessor.orString query header with
  | None => (t, 400)
  | Some cid =>
      if putFails then (t, 500)
      else (<[conn := {| connectionId := conn;
                         clientId := cid;
                         connectedAt := now;
                         ttl := generateTTL now' 1 |}]> t,
            200)
  end.

(** [handleDisconnect(connectionId)] of [websocket.js]. *)
Definition handleDisconnect (deleteFails : bool) (t : ConnTable)
    (conn : string) : ConnTable * Z :=
  if deleteFails then (t, 500) else (delete conn t, 200).

(** [getActiveConnections(clientIds)] of [notify.js]: the scan with the
    filter [clientId IN (...)].  A scan that throws, as it does for an
    empty list of ids, gives no connection. *)
Definition getActiveConnections (scanFails : bool) (t : ConnTable)
    (clientIds : list string) : list ConnectionRecord :=
  if scanFails then []
  else
    List.filter (fun c => existsb (String.eqb (clientId c)) clientIds)
                (map snd (map_to_list t)).

(** How a send to a connection ended. *)
Inductive SendOutcome : Type :=
| Fulfilled
| Gone
| Rejected.

(** What the handler of [notify.js] did: the connections it sent to, and
    the two counts it logs. *)
Record NotifyReport : Type := mkNotifyReport {
  sent : list ConnectionRecord;
  successful : nat;
  failed : nat
}.

Definition isFulfilled (o : SendOutcome) : bool :=
  match o with
  | Fulfilled => true
  | _ => false
  end.

(** The handler of [notify.js] up to the cleanup of stale connections:
    [source] is the source of the event, [clientIds] the ids in its
    detail, and [send c] how the send to [c] ends. *)
Definition notify (scanFails : bool) (send : ConnectionRecord -> SendOutcome)
    (t : ConnTable) (source : string) (clientIds : list string)
    : NotifyReport :=
  if negb (String.eqb source "web-time-tracker")
  then {| sent := []; successful := 0; failed := 0 |}
  else
    let connections := getActiveConnections scanFails t clientIds in
    let results := map send connections in
    {| sent := connections;
       successful := length (List.filter isFulfilled results);
       failed := length (List.filter (fun o => negb (isFulfilled o)) results) |}.

(** The connections table keeps each record under its own id. *)
Definition conn_wf (t : ConnTable) : Prop :=
  forall k c, t !! k = Some c -> connectionId c = k.

End Connections.
(** ** Partition keys *)

Module Keys.

(** [s.split(sep)] for a separator of one character: the pieces between
    the separators, at least one. *)
Fixpoint split (sep : ascii) (s : string) : list string :=
  match s with
  | EmptyString => [EmptyString]
  | String c s' =>
      if Ascii.eqb c sep then EmptyString :: split sep s'
      else match split sep s' with
           | piece :: pieces => String c piece :: pieces
           | [] => [String c EmptyString]
           end
  end.

(** What [parsePK] returns; a part that is missing is [undefined]. *)
Record ParsedPK : Type := mkParsedPK {
  p_clientId : option string;
  p_host : option string;
  p_date : option string
}.

(** [parsePK(pk)] of [utils.js]. *)
Definition parsePK (pk : string) : ParsedPK :=
  let parts := split "#" pk in
  {| p_clientId := nth_error parts 0;
     p_host := nth_error parts 1;
     p_date := nth_error parts 2 |}.

(** Whether the separator occurs in a string. *)
Fixpoint contains (sep : ascii) (s : string) : bool :=
  match s with
  | EmptyString => false
  | String c s' => Ascii.eqb c sep || contains sep s'
  end.

End Keys.

(** ** Scenarios *)

Module Scenario.
Import Merge.

(** The stored record of the scenarios of the merge: session [A], version
    3, last modified at 1000. *)
Definition stored : StoredRecord :=
  {| PK := "c1#example.com#20250101";
     SK := "data";
     clientId := "c1";
     host := "example.com";
     date := "20250101";
     focus := 100;
     time := 50;
     sessionId := "A";
     lastModified := 1000;
     batchId := Some "b0";
     version := 3;
     ttl := 604800;
     conflictResolution := None |}.

Definition upload (session : string) (f t modified : Z) : Incoming :=
  {| in_clientId := "c1";
     in_host := "example.com";
     in_date := "20250101";
     in_focus := f;
     in_time := t;
     in_sessionId := session;
     in_lastModified := modified;
     in_batchId := Some "b1" |}.

(** The same session reporting a delta. *)
Definition sameSession : Incoming := upload "A" 30 10 1200.

(** Another session, later. *)
Definition otherNewer : Incoming := upload "B" 80 70 1200.

(** Another session, earlier. *)
Definition otherOlder : Incoming := upload "B" 80 10 900.

(** Another session, earlier, with a greater total. *)
Definition otherOlderGreater : Incoming := upload "B" 200 10 900.

(** The hot table holding [stored] and nothing else. *)
Definition hotTable : gmap (string * string) StoredRecord :=
  {[ ("c1#example.com#20250101", "data") := stored ]}.

Definition wireRow (session : string) (f t modified : Z)
    : SyncProcessor.WireRow :=
  {| SyncProcessor.w_host := "example.com";
     SyncProcessor.w_date := "20250101";
     SyncProcessor.w_focus := Some f;
     SyncProcessor.w_time := Some t;
     SyncProcessor.w_sessionId := session;
     SyncProcessor.w_lastModified := Some modified |}.

(** The uploads above, as rows of a request body. *)
Definition rowSameSession : SyncProcessor.WireRow := wireRow "A" 30 10 1200.
Definition rowOtherOlder : SyncProcessor.WireRow := wireRow "B" 80 10 900.

(** A server clock standing at 2000. *)
Definition serverClock : nat -> Z := fun _ => 2000.

(** A download on 1 January 2026 of the rows of December 2025. *)
Definition today : Z := 1767225600000.
Definition rangeStart : Z := 1764547200000.
Definition rangeEnd : Z := 1767139200000.

(** [formatDate] and [new Date('YYYY-MM-DD')] on the instants and dates
    of the download. *)
Definition formatDate (instant : Z) : string :=
  if instant =? rangeStart then "20251201"
  else if instant =? rangeEnd then "20251231"
  else "".

Definition dateOfYMD (ymd : string) : option Z :=
  if String.eqb ymd "20251210" then Some 1765324800000
  else if String.eqb ymd "20251215" then Some 1765756800000
  else None.

(** The hot table answers with one item for 15 December, uploaded on
    30 December with a timestamp of 15 December, after the sweep had
    moved the earlier record of that day to the archive. *)
Definition hotItems : list StoredRecord :=
  [ {| PK := "c1#example.com#20251215";
       SK := "data";
       clientId := "c1";
       host := "example.com";
       date := "20251215";
       focus := 100;
       time := 50;
       sessionId := "A";
       lastModified := 1765756800100;
       batchId := Some "b0";
       version := 1;
       ttl := 1767657600;
       conflictResolution := None |} ].

(** The archive of December holds a record for 10 December and one for
    15 December, the latter last modified on 20 December. *)
Definition coldMonths : list (list SyncProcessor.ColdRecord) :=
  [ [ {| SyncProcessor.cr_host := "example.com";
         SyncProcessor.cr_date := "20251215";
         SyncProcessor.cr_focus := 300;
         SyncProcessor.cr_time := 90;
         SyncProcessor.cr_lastModified := 1766188800000;
         SyncProcessor.cr_sessionId := "B" |};
      {| SyncProcessor.cr_host := "example.com";
         SyncProcessor.cr_date := "20251210";
         SyncProcessor.cr_focus := 7;
         SyncProcessor.cr_time := 3;
         SyncProcessor.cr_lastModified := 1765324800500;
         SyncProcessor.cr_sessionId := "B" |} ] ].

(** One local row, and batches of it. *)
Definition localRow : OutboundQueue.Row :=
  {| OutboundQueue.host := "example.com";
     OutboundQueue.date := "20250101";
     OutboundQueue.focus := 30;
     OutboundQueue.time := 10;
     OutboundQueue.run := None |}.

Definition batchOf (bid : string) (retries : nat) : OutboundQueue.PendingSync :=
  {| OutboundQueue.rows := [localRow];
     OutboundQueue.timestamp := 1000;
     OutboundQueue.retryCount := retries;
     OutboundQueue.batchId := bid |}.

Definition idle : OutboundQueue.SyncStats :=
  {| OutboundQueue.totalSynced := 0;
     OutboundQueue.totalFailed := 0;
     OutboundQueue.lastSyncTime := 0;
     OutboundQueue.pendingCount := 0;
     OutboundQueue.isOnline := true |}.

Definition serviceWith (queue : list OutboundQueue.PendingSync)
    : OutboundQueue.BackgroundSyncService :=
  {| OutboundQueue.isEnabled := true;
     OutboundQueue.syncQueue := queue;
     OutboundQueue.isProcessing := false;
     OutboundQueue.stats := idle |}.

(** A queue at the cap: batch [old] followed by 999 batches [later]. *)
Definition fullQueue : list OutboundQueue.PendingSync :=
  batchOf "old" 0 :: repeat (batchOf "later" 0) 999.

(** A queue of two batches, the first one failure away from the ceiling. *)
Definition twoBatches : list OutboundQueue.PendingSync :=
  [batchOf "first" 2; batchOf "second" 0].

(** Deliveries that all fail. *)
Definition allFail : nat -> OutboundQueue.PendingSync -> bool :=
  fun _ _ => false.

(** A manager that was enabled, connected, and then disabled; the close
    event of the socket it closed restarted polling, a poll tick opened a
    new socket, and that socket connected. *)
Definition endpoint : option string := Some "wss://sync.example.com".

Definition connectedWhileDisabled : Transport.HybridSyncManager :=
  Transport.run
    [ Transport.SetEnabled true endpoint;
      Transport.OnOpen;
      Transport.SetEnabled false endpoint;
      Transport.OnClose;
      Transport.PollTick false true endpoint;
      Transport.OnOpen ]
    (Transport.initial (Some "c1")).

(** A manager that was enabled and connected. *)
Definition connectedEnabled : Transport.HybridSyncManager :=
  Transport.run [Transport.SetEnabled true endpoint; Transport.OnOpen]
    (Transport.initial (Some "c1")).

(** A hot table without items. *)
Definition emptyTable : gmap (string * string) StoredRecord := ∅.

(** An upload of one row by the session of [stored]. *)
Definition uploadRequest : SyncProcessor.UploadRequest :=
  {| SyncProcessor.u_header := Some "c1";
     SyncProcessor.u_clientId := None;
     SyncProcessor.u_rows := Some [rowSameSession];
     SyncProcessor.u_batchId := Some "b1" |}.

(** The item of 15 December, as the sweep and the upload archive it. *)
Definition sweptItem : StoredRecord := nth 0 hotItems stored.

(** A bucket without objects, and a connections table without
    connections. *)
Definition emptyBucket : gmap string Archive.Blob := ∅.
Definition noConnections : gmap string Connections.ConnectionRecord := ∅.

(** Sends that all succeed. *)
Definition allDelivered
    : Connections.ConnectionRecord -> Connections.SendOutcome :=
  fun _ => Connections.Fulfilled.

(** A call of [queueForSync] with one row, made during a delivery. *)
Definition lateArrival : OutboundQueue.Arrival :=
  {| OutboundQueue.ar_now := 1500;
     OutboundQueue.ar_bid := "late";
     OutboundQueue.ar_rows := [localRow] |}.

(** Deliveries of which the first one succeeds and the others fail. *)
Definition firstOnly : nat -> OutboundQueue.PendingSync -> bool :=
  fun attempt _ => (attempt =? 0)%nat.

(** A storage service that fails on every row. *)
Definition storageDown : nat -> option string :=
  fun _ => Some "ServiceUnavailable".

End Scenario.

(** * Properties *)

(** ** The Row Merge Function *)

Section MergeFacts.
Import Merge.

Variable now : Z.
Variables (existing : StoredRecord) (incoming : Incoming).

Lemma same_session_eqb :
  sessionId existing = in_sessionId incoming ->
  String.eqb (sessionId existing) (in_sessionId incoming) = true.
Proof. intros ->. apply String.eqb_refl. Qed.

Lemma other_session_eqb :
  sessionId existing <> in_sessionId incoming ->
  String.eqb (sessionId existing) (in_sessionId incoming) = false.
Proof. intros Hne. now apply String.eqb_neq. Qed.

(** C1. Same session: the totals add up, the later timestamp is kept, the
    version goes up by one and no conflict is recorded. *)
Theorem resolveConflict_accumulates :
  sessionId existing = in_sessionId incoming ->
  let r := resolveConflict now existing incoming in
  focus (resolved r) = focus existing + in_focus incoming
  /\ time (resolved r) = time existing + in_time incoming
  /\ lastModified (resolved r)
     = Z.max (lastModified existing) (in_lastModified incoming)
  /\ version (resolved r) = version existing + 1
  /\ conflicts r = [].
Proof.
  intros Hsame. cbv zeta. unfold resolveConflict.
  rewrite (same_session_eqb Hsame). cbn. repeat split.
Qed.

(** C2. Another session with a later timestamp: the greater totals are
    kept, the record passes to the incoming client and session, the version
    goes up by one, and one [session_conflict] carries what was
    overwritten. *)
Theorem resolveConflict_newer_wins :
  sessionId existing <> in_sessionId incoming ->
  in_lastModified incoming > lastModified existing ->
  let r := resolveConflict now existing incoming in
  focus (resolved r) = Z.max (focus existing) (in_focus incoming)
  /\ time (resolved r) = Z.max (time existing) (in_time incoming)
  /\ clientId (resolved r) = in_clientId incoming
  /\ sessionId (resolved r) = in_sessionId incoming
  /\ version (resolved r) = version existing + 1
  /\ exists c,
       conflicts r = [c]
       /\ c_type c = session_conflict
       /\ c_overwritten c
          = Some {| ow_focus := focus existing;
                    ow_time := time existing;
                    ow_lastModified := lastModified existing |}.
Proof.
  intros Hother Hnewer. cbv zeta. unfold resolveConflict.
  rewrite (other_session_eqb Hother).
  assert ((lastModified existing <? in_lastModified incoming) = true) as ->
    by (apply Z.ltb_lt; lia).
  cbn. repeat split. eexists. repeat split.
Qed.

(** C3. Another session with a timestamp that is not later: the existing
    record is returned as it is, with one [timestamp_conflict] marked
    rejected. *)
Theorem resolveConflict_rejects :
  sessionId existing <> in_sessionId incoming ->
  in_lastModified incoming <= lastModified existing ->
  let r := resolveConflict now existing incoming in
  resolved r = existing
  /\ exists c,
       conflicts r = [c]
       /\ c_type c = timestamp_conflict
       /\ c_rejected c = Some true.
Proof.
  intros Hother Holder. cbv zeta. unfold resolveConflict.
  rewrite (other_session_eqb Hother).
  assert ((lastModified existing <? in_lastModified incoming) = false) as ->
    by (apply Z.ltb_ge; lia).
  cbn. split; [reflexivity |]. eexists. repeat split.
Qed.

End MergeFacts.

Section MergeBranches.
Import Merge.

(** The three branches of [resolveConflict], each with the condition that
    selects it and what it does to the record and the conflict list. *)
Lemma resolveConflict_cases (now : Z) (existing : StoredRecord)
    (incoming : Incoming) :
  let r := resolveConflict now existing incoming in
  (sessionId existing = in_sessionId incoming
   /\ version (resolved r) = version existing + 1
   /\ conflicts r = [])
  \/ (sessionId existing <> in_sessionId incoming
      /\ lastModified existing < in_lastModified incoming
      /\ version (resolved r) = version existing + 1
      /\ lastModified (resolved r) = in_lastModified incoming
      /\ exists c, conflicts r = [c] /\ c_type c = session_conflict
                   /\ c_rejected c = None)
  \/ (sessionId existing <> in_sessionId incoming
      /\ in_lastModified incoming <= lastModified existing
      /\ resolved r = existing
      /\ exists c, conflicts r = [c] /\ c_type c = timestamp_conflict
                   /\ c_rejected c = Some true).
Proof.
  cbv zeta. unfold resolveConflict.
  destruct (String.eqb_spec (sessionId existing) (in_sessionId incoming))
    as [Hs | Hs].
  - left. cbn. now repeat split.
  - destruct (Z.ltb_spec (lastModified existing) (in_lastModified incoming))
      as [Hlt | Hge]; cbn.
    + right. left. repeat split; try assumption. eexists. now repeat split.
    + right. right. repeat split; try assumption. eexists. now repeat split.
Qed.

End MergeBranches.

Section MergeScenarios.
Import Merge Scenario.

Lemma resolveConflict_accumulates_scenario :
  let r := resolveConflict 0 stored sameSession in
  focus (resolved r) = 130
  /\ time (resolved r) = 60
  /\ lastModified (resolved r) = 1200
  /\ version (resolved r) = 4
  /\ conflicts r = [].
Proof. exact (resolveConflict_accumulates 0 stored sameSession eq_refl). Defined.

Lemma resolveConflict_newer_wins_scenario :
  let r := resolveConflict 0 stored otherNewer in
  focus (resolved r) = 100
  /\ time (resolved r) = 70
  /\ clientId (resolved r) = "c1"
  /\ sessionId (resolved r) = "B"
  /\ version (resolved r) = 4
  /\ exists c,
       conflicts r = [c]
       /\ c_type c = session_conflict
       /\ c_overwritten c
          = Some {| ow_focus := 100; ow_time := 50; ow_lastModified := 1000 |}.
Proof.
  apply (resolveConflict_newer_wins 0 stored otherNewer).
  - discriminate.
  - reflexivity.
Defined.

Lemma resolveConflict_rejects_scenario :
  let r := resolveConflict 0 stored otherOlder in
  resolved r = stored
  /\ exists c,
       conflicts r = [c]
       /\ c_type c = timestamp_conflict
       /\ c_rejected c = Some true.
Proof.
  apply (resolveConflict_rejects 0 stored otherOlder).
  - discriminate.
  - discriminate.
Defined.

End MergeScenarios.

Section MergeMonotone.
Import Merge.

Variable now : Z.
Variables (existing : StoredRecord) (incoming : Incoming).

(** On every branch the resolved record keeps the key attributes and the
    host and date of the existing one. *)
Lemma resolveConflict_frame :
  let r := resolveConflict now existing incoming in
  PK (resolved r) = PK existing
  /\ SK (resolved r) = SK existing
  /\ host (resolved r) = host existing
  /\ date (resolved r) = date existing.
Proof.
  cbv zeta. unfold resolveConflict.
  destruct (String.eqb _ _); [| destruct (_ <? _)]; cbn; repeat split.
Qed.

(** C4, as amended.  With non-negative incoming totals the resolved totals
    are never below the existing ones; they reach the greater of the two
    totals when another session wins with a later timestamp, and they are
    the existing totals when the update is rejected. *)
Theorem resolveConflict_monotone :
  0 <= in_focus incoming ->
  0 <= in_time incoming ->
  let r := resolveConflict now existing incoming in
  (focus existing <= focus (resolved r)
   /\ time existing <= time (resolved r))
  /\ (sessionId existing <> in_sessionId incoming ->
      lastModified existing < in_lastModified incoming ->
      focus (resolved r) = Z.max (focus existing) (in_focus incoming)
      /\ time (resolved r) = Z.max (time existing) (in_time incoming))
  /\ (sessionId existing <> in_sessionId incoming ->
      in_lastModified incoming <= lastModified existing ->
      focus (resolved r) = focus existing
      /\ time (resolved r) = time existing).
Proof.
  intros Hf Ht. cbv zeta. unfold resolveConflict.
  destruct (String.eqb _ _) eqn:Hs.
  - apply String.eqb_eq in Hs. cbn. repeat split; try lia; contradiction.
  - destruct (_ <? _) eqn:Hlt.
    + apply Z.ltb_lt in Hlt. cbn. repeat split; lia.
    + apply Z.ltb_ge in Hlt. cbn. repeat split; lia.
Qed.

End MergeMonotone.

Section MergeMonotoneScenarios.
Import Merge Scenario.

Lemma resolveConflict_monotone_scenario :
  let r := resolveConflict 0 stored otherNewer in
  (focus stored <= focus (resolved r) /\ time stored <= time (resolved r))
  /\ (sessionId stored <> in_sessionId otherNewer ->
      lastModified stored < in_lastModified otherNewer ->
      focus (resolved r) = Z.max (focus stored) (in_focus otherNewer)
      /\ time (resolved r) = Z.max (time stored) (in_time otherNewer))
  /\ (sessionId stored <> in_sessionId otherNewer ->
      in_lastModified otherNewer <= lastModified stored ->
      focus (resolved r) = focus stored
      /\ time (resolved r) = time stored).
Proof.
  apply (resolveConflict_monotone 0 stored otherNewer).
  - discriminate.
  - discriminate.
Defined.

(** C4, as stated, fails on the reject branch: a cross-client update that
    is rejected leaves the existing focus, 100, below the incoming 200. *)
Lemma resolveConflict_reject_below_max :
  0 <= in_focus otherOlderGreater
  /\ 0 <= in_time otherOlderGreater
  /\ sessionId stored <> in_sessionId otherOlderGreater
  /\ ~ (focus (resolved (resolveConflict 0 stored otherOlderGreater))
        >= Z.max (focus stored) (in_focus otherOlderGreater)).
Proof.
  repeat split; try discriminate.
  vm_compute. intros H. now apply H.
Qed.

End MergeMonotoneScenarios.

(** ** The Sync Processor *)

Section ProcessRowFacts.
Import Merge SyncProcessor.

Lemma putItem_Some (t t' : Table) (item : StoredRecord) :
  putItem t item = Some t' -> t' = <[(PK item, SK item) := item]> t.
Proof.
  unfold putItem. destruct (t !! _) as [cur |].
  - destruct (_ <? _); congruence.
  - congruence.
Qed.

Lemma table_wf_insert (t : Table) (item : StoredRecord) :
  table_wf t -> table_wf (<[(PK item, SK item) := item]> t).
Proof.
  intros Hwf k x Hk. apply lookup_insert_Some in Hk as [[<- <-] | [_ Hk]].
  - reflexivity.
  - now apply Hwf.
Qed.

(** What is written back sits at the key that was read. *)
Lemma mergeRow_key (now : Z) (t : Table) (cid : string) (row : WireRow)
    (bid : option string) :
  table_wf t ->
  let pk := generatePK cid (w_host row) (w_date row) in
  let finalData := fst (mergeRow now t cid row bid) in
  PK finalData = pk
  /\ SK finalData = "data"
  /\ forall item, getItem t pk = Some item ->
       host finalData = host item /\ date finalData = date item.
Proof.
  intros Hwf. cbv zeta. unfold mergeRow.
  destruct (getItem t _) as [item |] eqn:Hget.
  - cbn [fst].
    destruct (resolveConflict_frame now item (incomingOf now cid row bid))
      as (HPK & HSK & Hhost & Hdate).
    apply Hwf in Hget. injection Hget as HPKi HSKi.
    repeat split; congruence.
  - cbn. repeat split; congruence.
Qed.

(** A rejected update is written back under a condition that cannot
    hold: the stored version is not below itself. *)
Lemma putItem_rejected (now : Z) (t : Table) (cid : string) (row : WireRow)
    (bid : option string) (item : StoredRecord) :
  table_wf t ->
  getItem t (generatePK cid (w_host row) (w_date row)) = Some item ->
  sessionId item <> w_sessionId row ->
  orElse (w_lastModified row) now <= lastModified item ->
  putItem t (fst (mergeRow now t cid row bid)) = None.
Proof.
  intros Hwf Hget Hother Holder.
  unfold mergeRow. rewrite Hget. cbn [fst].
  destruct (resolveConflict_cases now item (incomingOf now cid row bid))
    as [(Hs & _) | [(_ & Hlt & _) | (_ & _ & -> & _)]];
    [contradiction | cbn in Hlt; lia |].
  unfold putItem. pose proof (Hwf _ _ Hget) as Hk.
  unfold getItem in Hget. rewrite <- Hk, Hget.
  now rewrite Z.ltb_irrefl.
Qed.

(** While the update stays rejected, no number of attempts gives a
    result. *)
Lemma processRow_rejected_no_result (clock : nat -> Z) (t : Table)
    (cid : string) (row : WireRow) (bid : option string)
    (item : StoredRecord) :
  table_wf t ->
  getItem t (generatePK cid (w_host row) (w_date row)) = Some item ->
  sessionId item <> w_sessionId row ->
  (forall n, orElse (w_lastModified row) (clock n) <= lastModified item) ->
  forall fuel, processRow fuel clock t cid row bid = None.
Proof.
  intros Hwf Hget Hother Holder fuel.
  induction fuel as [| fuel IH]; [reflexivity |].
  cbn [processRow].
  pose proof (putItem_rejected (clock fuel) t cid row bid item Hwf Hget
                Hother (Holder fuel)) as Hput.
  destruct (mergeRow (clock fuel) t cid row bid) as [finalData cs].
  cbn [fst] in Hput. rewrite Hput. exact IH.
Qed.

(** An update that is not rejected is written at the first attempt. *)
Lemma processRow_accepted_result (clock : nat -> Z) (t : Table)
    (cid : string) (row : WireRow) (bid : option string) (fuel : nat) :
  table_wf t ->
  (forall item,
     getItem t (generatePK cid (w_host row) (w_date row)) = Some item ->
     sessionId item = w_sessionId row
     \/ lastModified item < orElse (w_lastModified row) (clock fuel)) ->
  exists t' r, processRow (S fuel) clock t cid row bid = Some (t', r).
Proof.
  intros Hwf Hacc. cbn [processRow].
  destruct (mergeRow (clock fuel) t cid row bid) as [finalData cs] eqn:Hm.
  assert (exists t', putItem t finalData = Some t') as [t' ->];
    [| eauto].
  unfold mergeRow in Hm.
  destruct (getItem t _) as [item |] eqn:Hget.
  - injection Hm as <- <-.
    pose proof (Hwf _ _ Hget) as Hk. unfold getItem in Hget.
    destruct (resolveConflict_frame (clock fuel) item
                (incomingOf (clock fuel) cid row bid)) as (HPK & HSK & _).
    unfold putItem. rewrite HPK, HSK, <- Hk, Hget.
    assert (version (resolved (resolveConflict (clock fuel) item
              (incomingOf (clock fuel) cid row bid))) = version item + 1) as ->.
    { destruct (resolveConflict_cases (clock fuel) item
                  (incomingOf (clock fuel) cid row bid))
        as [(_ & Hv & _) | [(_ & _ & Hv & _) | (Hs & Hle & _)]];
        [exact Hv | exact Hv |].
      destruct (Hacc item eq_refl) as [Hsame | Hlt];
        [contradiction | cbn in Hle; lia]. }
    assert ((version item <? version item + 1) = true) as ->
      by (apply Z.ltb_lt; lia).
    eauto.
  - injection Hm as <- <-. unfold putItem. cbn [PK SK newRecord].
    unfold getItem in Hget. rewrite Hget. eauto.
Qed.

(** C10. The merge keeps host and date on every branch, and a row that is
    processed changes the table at the key it was read from and nowhere
    else: the item written carries that key, and the host and date of the
    record that was there. *)
Theorem processRow_same_key (fuel : nat) (clock : nat -> Z) (t : Table)
    (cid : string) (row : WireRow) (bid : option string) :
  table_wf t ->
  (forall now existing incoming,
     host (resolved (resolveConflict now existing incoming)) = host existing
     /\ date (resolved (resolveConflict now existing incoming)) = date existing)
  /\ forall t' r,
       processRow fuel clock t cid row bid = Some (t', r) ->
       let pk := generatePK cid (w_host row) (w_date row) in
       r_pk r = pk
       /\ exists finalData,
            t' = <[(pk, "data") := finalData]> t
            /\ (exists n, finalData = fst (mergeRow (clock n) t cid row bid))
            /\ PK finalData = pk
            /\ SK finalData = "data"
            /\ (forall existing, getItem t pk = Some existing ->
                  host finalData = host existing
                  /\ date finalData = date existing)
            /\ table_wf t'.
Proof.
  intros Hwf. split.
  { intros now existing incoming.
    destruct (resolveConflict_frame now existing incoming) as (_ & _ & Hh & Hd).
    now split. }
  induction fuel as [| fuel IH]; intros t' r Hrun; [discriminate |].
  cbn [processRow] in Hrun.
  pose proof (mergeRow_key (clock fuel) t cid row bid Hwf) as Hkey.
  cbv zeta in Hkey.
  destruct (mergeRow (clock fuel) t cid row bid) as [finalData cs] eqn:Hm.
  cbn [fst] in Hkey. destruct Hkey as (HPK & HSK & Hframe).
  destruct (putItem t finalData) as [t1 |] eqn:Hput.
  - injection Hrun as <- <-. cbv zeta. split; [reflexivity |].
    exists finalData. apply putItem_Some in Hput.
    rewrite HPK, HSK in Hput. repeat split; try assumption.
    + exists fuel. now rewrite Hm.
    + apply Hframe. assumption.
    + apply Hframe. assumption.
    + subst t1. rewrite <- HPK at 1. rewrite <- HSK.
      now apply table_wf_insert.
  - now apply IH.
Qed.

End ProcessRowFacts.

Section ProcessRowScenarios.
Import Merge SyncProcessor Scenario.

Lemma hotTable_wf : table_wf hotTable.
Proof.
  intros k item Hk. unfold hotTable in Hk.
  apply lookup_singleton_Some in Hk as [<- <-]. reflexivity.
Qed.

Lemma hotTable_stored :
  getItem hotTable (generatePK "c1" "example.com" "20250101") = Some stored.
Proof. unfold getItem, hotTable. apply lookup_singleton_eq. Qed.

Lemma processRow_same_key_scenario :
  exists t' r,
    processRow 1 serverClock hotTable "c1" rowSameSession (Some "b1")
    = Some (t', r)
    /\ r_pk r = "c1#example.com#20250101"
    /\ exists finalData,
         t' = <[("c1#example.com#20250101", "data") := finalData]> hotTable
         /\ (exists n,
               finalData
               = fst (mergeRow (serverClock n) hotTable "c1" rowSameSession
                        (Some "b1")))
         /\ PK finalData = "c1#example.com#20250101"
         /\ SK finalData = "data"
         /\ (forall existing,
               getItem hotTable "c1#example.com#20250101" = Some existing ->
               host finalData = host existing
               /\ date finalData = date existing)
         /\ table_wf t'.
Proof.
  destruct (processRow_accepted_result serverClock hotTable "c1"
              rowSameSession (Some "b1") 0 hotTable_wf) as (t' & r & Hrun).
  { intros item Hitem. left.
    pose proof hotTable_stored as Hs. cbn in Hs, Hitem.
    rewrite Hs in Hitem. now injection Hitem as <-. }
  exists t', r. split; [exact Hrun |].
  exact (proj2 (processRow_same_key 1 serverClock hotTable "c1"
                  rowSameSession (Some "b1") hotTable_wf) t' r Hrun).
Defined.

(** C5, where the code departs from it.  An update from another session
    with an older timestamp is rejected; the record to write back is the
    stored one, version included, so the conditional write fails, the row
    is processed again from a fresh read, and so on: no number of attempts
    gives a result. *)
Theorem processRow_reject_never_returns :
  forall fuel,
    processRow fuel serverClock hotTable "c1" rowOtherOlder (Some "b1") = None.
Proof.
  apply processRow_rejected_no_result with (item := stored).
  - exact hotTable_wf.
  - exact hotTable_stored.
  - discriminate.
  - intros n. cbn. lia.
Qed.

End ProcessRowScenarios.

Section DownloadFacts.
Import Merge SyncProcessor.

Lemma mapSet_fresh (key : string) (v : DataRow) (m : list (string * DataRow)) :
  mapGet key m = None -> mapSet key v m = m ++ [(key, v)].
Proof.
  induction m as [| [k x] m IH]; cbn; [reflexivity |].
  destruct (String.eqb k key); [discriminate |].
  intros Hm. now rewrite IH.
Qed.

Lemma mapGet_seen (key : string) (m : list (string * DataRow)) :
  existsb (String.eqb key) (map fst m)
  = match mapGet key m with Some _ => true | None => false end.
Proof.
  induction m as [| [k x] m IH]; cbn; [reflexivity |].
  rewrite (String.eqb_sym key k).
  destruct (String.eqb k key); [reflexivity | exact IH].
Qed.

Lemma existsb_app_single (key k : string) (seen : list string) :
  existsb (String.eqb key) (seen ++ [k])
  = existsb (String.eqb key) seen || String.eqb key k.
Proof. rewrite existsb_app. cbn. now rewrite orb_false_r. Qed.

(** The order in which the seen keys are kept does not matter. *)
Lemma keepFirst_ext (rows : list DataRow) :
  forall seen seen',
    (forall key, existsb (String.eqb key) seen
                 = existsb (String.eqb key) seen') ->
    keepFirst seen rows = keepFirst seen' rows.
Proof.
  induction rows as [| row rows IH]; intros seen seen' Hsame; cbn;
    [reflexivity |].
  rewrite <- Hsame. destruct (existsb _ seen); [now apply IH |].
  f_equal. apply IH. intros key. cbn. now rewrite Hsame.
Qed.

(** Rows without a [lastModified] never replace an entry. *)
Lemma dedup_fold_keepFirst (rows : list DataRow) :
  Forall (fun row => dl_lastModified row = None) rows ->
  forall m,
    map snd (fold_left dedupStep rows m)
    = map snd m ++ keepFirst (map fst m) rows.
Proof.
  induction 1 as [| row rows Hrow _ IH]; intros m; cbn [fold_left keepFirst].
  - now rewrite app_nil_r.
  - rewrite IH. unfold dedupStep. rewrite mapGet_seen.
    destruct (mapGet (rowKey row) m) as [old |] eqn:Hget.
    + rewrite Hrow. reflexivity.
    + rewrite (mapSet_fresh _ _ _ Hget). rewrite !map_app. cbn [map fst snd].
      rewrite <- app_assoc. cbn [app]. do 2 f_equal.
      apply keepFirst_ext. intros key.
      rewrite existsb_app_single. cbn [existsb]. apply orb_comm.
Qed.

Lemma deduplicateRows_keepFirst (rows : list DataRow) :
  Forall (fun row => dl_lastModified row = None) rows ->
  deduplicateRows rows = keepFirst [] rows.
Proof.
  intros Hrows. unfold deduplicateRows.
  now rewrite (dedup_fold_keepFirst rows Hrows []).
Qed.

Variable formatDate : Z -> string.
Variable dateOfYMD : string -> option Z.

Lemma downloadHotData_no_lastModified (items : list StoredRecord)
    (startDate endDate : Z) :
  Forall (fun row => dl_lastModified row = None)
         (downloadHotData formatDate items startDate endDate).
Proof.
  unfold downloadHotData. apply List.Forall_forall. intros row Hin.
  apply in_map_iff in Hin as (item & <- & _). reflexivity.
Qed.

Lemma downloadColdData_no_lastModified (months : list (list ColdRecord))
    (startDate endDate : Z) :
  Forall (fun row => dl_lastModified row = None)
         (downloadColdData dateOfYMD months startDate endDate).
Proof.
  unfold downloadColdData. apply List.Forall_forall. intros row Hin.
  apply in_flat_map in Hin as (month & _ & Hin).
  apply in_map_iff in Hin as (record & <- & _). reflexivity.
Qed.

(** Both readers drop [lastModified], so [downloadData] keeps, of the rows
    of one host and date, the first one read: the hot one if there is
    one. *)
Lemma downloadData_keeps_first (now : Z) (items : list StoredRecord)
    (months : list (list ColdRecord)) (startDate endDate : Z) :
  downloadData formatDate dateOfYMD now items months startDate endDate
  = sortByDate
      (keepFirst []
         (downloadHotData formatDate items startDate endDate
          ++ (if startDate <? now - 7 * 24 * 60 * 60 * 1000
              then downloadColdData dateOfYMD months startDate endDate
              else []))).
Proof.
  unfold downloadData. cbv zeta. f_equal.
  destruct (startDate <? _).
  - apply deduplicateRows_keepFirst. apply Forall_app. split.
    + apply downloadHotData_no_lastModified.
    + apply downloadColdData_no_lastModified.
  - rewrite app_nil_r. apply deduplicateRows_keepFirst.
    apply downloadHotData_no_lastModified.
Qed.

End DownloadFacts.

Section DownloadScenario.
Import Merge SyncProcessor Scenario.

(** C6, where the code departs from it.  The hot table and the archive
    both hold a row for example.com on 15 December 2025; the archived one
    was modified later.  The download returns the rows sorted by date, but
    for 15 December it returns the hot row, focus 100, not the later one,
    focus 300. *)
Theorem downloadData_keeps_older_entry :
  downloadData formatDate dateOfYMD today hotItems coldMonths
    rangeStart rangeEnd
  = [ {| dl_host := "example.com"; dl_date := "20251210";
         dl_focus := 7; dl_time := 3; dl_lastModified := None |};
      {| dl_host := "example.com"; dl_date := "20251215";
         dl_focus := 100; dl_time := 50; dl_lastModified := None |} ].
Proof. vm_compute. reflexivity. Qed.

End DownloadScenario.

(** ** The Outbound Queue *)

Section QueueFacts.
Import OutboundQueue.

Lemma dropOldest_bounded (queue : list PendingSync) :
  (length (dropOldest queue) <= maxQueueSize)%nat.
Proof.
  induction queue as [| batch queue IH]; cbn [dropOldest].
  - cbn [length]. lia.
  - destruct (Nat.ltb_spec maxQueueSize (length (batch :: queue))) as [Hgt | Hle].
    + exact IH.
    + exact Hle.
Qed.

Lemma dropOldest_within (queue : list PendingSync) :
  (length queue <= maxQueueSize)%nat -> dropOldest queue = queue.
Proof.
  destruct queue as [| batch queue]; cbn [dropOldest]; [reflexivity |].
  intros Hle.
  destruct (Nat.ltb_spec maxQueueSize (length (batch :: queue))) as [Hgt | _].
  - lia.
  - reflexivity.
Qed.

Lemma dropOldest_one_over (batch : PendingSync) (queue : list PendingSync) :
  length queue = maxQueueSize -> dropOldest (batch :: queue) = queue.
Proof.
  intros Hlen. cbn [dropOldest].
  destruct (Nat.ltb_spec maxQueueSize (length (batch :: queue))) as [_ | Hle].
  - apply dropOldest_within. lia.
  - cbn [length] in Hle. lia.
Qed.

(** C7. An enqueue leaves at most [maxQueueSize] batches.  A queue within
    the cap stays within it; an enqueue that takes effect brings any queue
    within it; and on a queue at the cap it drops the head, keeps the other
    batches in order and puts the new batch last. *)
Theorem queueForSync_bounded (now : Z) (bid : string) (rs : list Row)
    (svc : BackgroundSyncService) :
  let queue' := syncQueue (fst (queueForSync now bid rs svc)) in
  let pendingSync :=
    {| rows := rs; timestamp := now; retryCount := 0; batchId := bid |} in
  ((length (syncQueue svc) <= maxQueueSize)%nat ->
   (length queue' <= maxQueueSize)%nat)
  /\ (isEnabled svc = true -> rs <> [] ->
      (length queue' <= maxQueueSize)%nat)
  /\ (isEnabled svc = true -> rs <> [] ->
      length (syncQueue svc) = maxQueueSize ->
      queue' = tl (syncQueue svc) ++ [pendingSync]
      /\ length queue' = maxQueueSize)
  /\ (isEnabled svc = true -> rs <> [] ->
      (length (syncQueue svc) < maxQueueSize)%nat ->
      queue' = syncQueue svc ++ [pendingSync]).
Proof.
  cbv zeta. unfold queueForSync.
  destruct (isEnabled svc) eqn:Hen; cbn [negb orb].
  2: { cbn [fst]. intuition discriminate. }
  destruct rs as [| r rs]; cbn [length Nat.eqb].
  { cbn [fst]. intuition congruence. }
  cbn [fst syncQueue]. repeat split; intros.
  - apply dropOldest_bounded.
  - apply dropOldest_bounded.
  - destruct (syncQueue svc) as [| old queue].
    + cbn [length] in *. unfold maxQueueSize in *. discriminate.
    + cbn [app tl]. apply dropOldest_one_over.
      rewrite length_app. cbn [length] in *. lia.
  - destruct (syncQueue svc) as [| old queue].
    + cbn [length] in *. unfold maxQueueSize in *. discriminate.
    + cbn [app]. rewrite dropOldest_one_over.
      * rewrite length_app. cbn [length] in *. lia.
      * rewrite length_app. cbn [length] in *. lia.
  - apply dropOldest_within. rewrite length_app. cbn [length]. lia.
Qed.

End QueueFacts.

Section RetryFacts.
Import OutboundQueue.

Variable bid : string.













End RetryFacts.

Section RetryCeiling.
Import OutboundQueue.


(** Wherever in the cycle the head stands, a failed delivery below the
    ceiling ends the cycle with the batch at the tail, and one at the
    ceiling goes on without it. *)
Lemma processLoop_failed_head (syncBatch : nat -> PendingSync -> bool)
    (now : Z) (attempt processedCount : nat) (batch : PendingSync)
    (rest : list PendingSync) (st : SyncStats) :
  (processedCount < maxBatches)%nat ->
  syncBatch attempt batch = false ->
  processLoop syncBatch now attempt processedCount (batch :: rest) st
  = if (maxRetries <=? S (retryCount batch))%nat
    then logCall batch
           (processLoop syncBatch now (S attempt) processedCount rest
              (addFailed (length (rows batch)) st))
    else {| lr_queue := rest ++ [bumpRetry batch];
            lr_stats := st;
            lr_calls := [batch] |}.
Proof.
  intros Hcount Hfail. cbn [processLoop].
  apply Nat.ltb_lt in Hcount. rewrite Hcount, Hfail. reflexivity.
Qed.




End RetryCeiling.

Section QueueScenarios.
Import OutboundQueue Scenario.

(** The scenario of the cap: 1000 batches are pending and one more is
    enqueued. *)
Lemma queueForSync_full_scenario :
  let queue' :=
    syncQueue (fst (queueForSync 2000 "new" [localRow] (serviceWith fullQueue))) in
  queue'
  = tl fullQueue
    ++ [ {| rows := [localRow]; timestamp := 2000; retryCount := 0;
            batchId := "new" |} ]
  /\ length queue' = maxQueueSize.
Proof.
  apply (proj1 (proj2 (proj2
           (queueForSync_bounded 2000 "new" [localRow] (serviceWith fullQueue))))).
  - reflexivity.
  - discriminate.
  - vm_compute. reflexivity.
Defined.



End QueueScenarios.

(** ** The Transport Manager *)

Section TransportFacts.
Import Transport.

Lemma reconnectDelays_app (es es' : list Effect) :
  reconnectDelays (es ++ es') = reconnectDelays es ++ reconnectDelays es'.
Proof.
  induction es as [| e es IH]; [reflexivity |].
  destruct e as [cb ms | h | cb ms | h | | h | st]; cbn; try exact IH.
  destruct cb; cbn; try exact IH. now rewrite IH.
Qed.

Lemma extends_refl (m : HybridSyncManager) : extends m m [].
Proof. exists []. now rewrite app_nil_r. Qed.

Lemma extends_trans (m1 m2 m3 : HybridSyncManager) (ds ds' : list Z) :
  extends m1 m2 ds -> extends m2 m3 ds' -> extends m1 m3 (ds ++ ds').
Proof.
  intros (es & He & Hd) (es' & He' & Hd'). exists (es ++ es'). split.
  - now rewrite He', He, app_assoc.
  - now rewrite reconnectDelays_app, Hd, Hd'.
Qed.

Lemma quiet_refl (m : HybridSyncManager) : quiet m m.
Proof. split; [apply extends_refl | reflexivity]. Qed.

Lemma quiet_trans (m1 m2 m3 : HybridSyncManager) :
  quiet m1 m2 -> quiet m2 m3 -> quiet m1 m3.
Proof.
  intros [He Hk] [He' Hk']. split.
  - exact (extends_trans m1 m2 m3 [] [] He He').
  - congruence.
Qed.

Lemma quiet_then_step (m1 m2 m3 : HybridSyncManager) :
  quiet m1 m2 -> backoffStep m2 m3 -> backoffStep m1 m3.
Proof.
  intros Hq [Hq' | [He' Hk']].
  - left. exact (quiet_trans m1 m2 m3 Hq Hq').
  - destruct Hq as [He Hk]. right. rewrite <- Hk. split.
    + exact (extends_trans m1 m2 m3 [] _ He He').
    + exact Hk'.
Qed.

Lemma step_then_quiet (m1 m2 m3 : HybridSyncManager) :
  backoffStep m1 m2 -> quiet m2 m3 -> backoffStep m1 m3.
Proof.
  intros [Hq | [He Hk]] Hq'.
  - left. exact (quiet_trans m1 m2 m3 Hq Hq').
  - destruct Hq' as [He' Hk']. right. split.
    + pose proof (extends_trans m1 m2 m3 _ [] He He') as Hext.
      now rewrite app_nil_r in Hext.
    + congruence.
Qed.

(** An effect other than a reconnect timer is quiet. *)
Lemma quiet_perform (e : Effect) (m : HybridSyncManager) :
  reconnectDelays [e] = [] -> quiet m (perform e m).
Proof. intros He. split; [now exists [e] | reflexivity]. Qed.

Lemma quiet_emit (c : bool) (method : string) (status : option string)
    (m : HybridSyncManager) :
  quiet m (emit c method status m).
Proof. now apply quiet_perform. Qed.

Lemma quiet_setState (s : WebSocketConnectionState) (m : HybridSyncManager) :
  quiet m (setState s m).
Proof. quiet_setter. Qed.

Lemma quiet_setWebsocket (w : option nat) (m : HybridSyncManager) :
  quiet m (setWebsocket w m).
Proof. quiet_setter. Qed.

Lemma quiet_setIsEnabled (b : bool) (m : HybridSyncManager) :
  quiet m (setIsEnabled b m).
Proof. quiet_setter. Qed.

Lemma quiet_startPolling (m : HybridSyncManager) : quiet m (startPolling m).
Proof.
  unfold startPolling. destruct (pollInterval m); [apply quiet_refl |].
  split; [now exists [SetInterval PollCallback pollIntervalMs] | reflexivity].
Qed.

Lemma quiet_stopPolling (m : HybridSyncManager) : quiet m (stopPolling m).
Proof.
  unfold stopPolling. destruct (pollInterval m) as [h |]; [| apply quiet_refl].
  split; [now exists [ClearInterval h] | reflexivity].
Qed.

Lemma quiet_clearReconnectTimeout (m : HybridSyncManager) :
  quiet m (clearReconnectTimeout m).
Proof.
  unfold clearReconnectTimeout.
  destruct (reconnectTimeout m) as [h |]; [| apply quiet_refl].
  split; [now exists [ClearTimeout h] | reflexivity].
Qed.

Lemma quiet_closeWebSocket (m : HybridSyncManager) : quiet m (closeWebSocket m).
Proof.
  unfold closeWebSocket. destruct (websocket m) as [h |]; [| apply quiet_refl].
  split; [now exists [CloseWebSocket h] | reflexivity].
Qed.

Lemma quiet_connectWebSocket (endpoint : option string) (m : HybridSyncManager) :
  quiet m (fst (connectWebSocket endpoint m)).
Proof.
  unfold connectWebSocket.
  destruct (negb (hasClientId m)); [apply quiet_refl |].
  destruct (negb (configured endpoint)); [apply quiet_refl |].
  cbn [fst]. split; [| reflexivity].
  eexists [_; _; _]. split.
  - cbn. rewrite <- !app_assoc. reflexivity.
  - reflexivity.
Qed.

Lemma step_scheduleReconnect (m : HybridSyncManager) :
  backoffStep m (scheduleReconnect m).
Proof.
  unfold scheduleReconnect. destruct (negb (isEnabled m)).
  - left. apply quiet_refl.
  - right. destruct (quiet_clearReconnectTimeout m) as [(es & He & Hd) Hk].
    rewrite Hk. split; [| reflexivity].
    exists (es ++ [SetTimeout ReconnectCallback
                     (Z.min (baseBackoffMs * backoffMultiplier m) maxBackoffMs)]).
    split.
    + cbn. now rewrite He, app_assoc.
    + now rewrite reconnectDelays_app, Hd.
Qed.

Lemma quiet_stopSync (m : HybridSyncManager) : quiet m (stopSync m).
Proof.
  unfold stopSync.
  eapply quiet_trans; [| apply quiet_emit].
  eapply quiet_trans; [| apply quiet_setState].
  eapply quiet_trans; [| apply quiet_clearReconnectTimeout].
  eapply quiet_trans; [| apply quiet_stopPolling].
  apply quiet_closeWebSocket.
Qed.

Lemma quiet_startSync (endpoint : option string) (m : HybridSyncManager) :
  quiet m (startSync endpoint m).
Proof.
  unfold startSync. destruct (_ || _); [apply quiet_refl |].
  pose proof (quiet_connectWebSocket endpoint m) as Hc.
  destruct (connectWebSocket endpoint m) as [m1 threw]. cbn [fst] in Hc.
  destruct threw; [| exact Hc].
  eapply quiet_trans; [exact Hc | apply quiet_startPolling].
Qed.

(** Every event but a successful connect takes one back-off step at
    most. *)
Lemma step_handle (ev : Event) (m : HybridSyncManager) :
  isOpen ev = false -> backoffStep m (handle m ev).
Proof.
  destruct ev as [| | | endpoint | closed lucky endpoint | enabled endpoint];
    cbn [isOpen handle]; intros Hev; try discriminate.
  - unfold onclose.
    eapply step_then_quiet; [| apply quiet_emit].
    eapply quiet_then_step; [| apply step_scheduleReconnect].
    eapply quiet_trans; [| apply quiet_startPolling].
    eapply quiet_trans; [| apply quiet_setWebsocket].
    apply quiet_setState.
  - left. unfold onerror.
    eapply quiet_trans; [| apply quiet_emit]. apply quiet_setState.
  - unfold reconnectCallback.
    destruct (_ && _); [| left; apply quiet_refl].
    pose proof (quiet_connectWebSocket endpoint m) as Hc.
    destruct (connectWebSocket endpoint m) as [m1 threw]. cbn [fst] in Hc.
    destruct threw; [| left; exact Hc].
    eapply quiet_then_step; [exact Hc | apply step_scheduleReconnect].
  - left. unfold pollCallback. cbv zeta.
    destruct (_ && _); [apply quiet_connectWebSocket | apply quiet_refl].
  - left. unfold setEnabled. cbv zeta.
    destruct (_ && _).
    + eapply quiet_trans; [apply quiet_setIsEnabled | apply quiet_startSync].
    + eapply quiet_trans; [apply quiet_setIsEnabled | apply quiet_stopSync].
Qed.

End TransportFacts.

Section Backoff.
Import Transport.

Lemma backoffSchedule_S (n : nat) :
  backoffSchedule (S n)
  = backoffSchedule n
    ++ [Z.min (baseBackoffMs * 2 ^ Z.of_nat n) maxBackoffMs].
Proof. unfold backoffSchedule. now rewrite seq_S, map_app. Qed.

Lemma backoff_delay (n : nat) :
  Z.min (baseBackoffMs * Z.min (2 ^ Z.of_nat n) 60) maxBackoffMs
  = Z.min (baseBackoffMs * 2 ^ Z.of_nat n) maxBackoffMs.
Proof.
  assert (0 < 2 ^ Z.of_nat n) by (apply Z.pow_pos_nonneg; lia).
  unfold baseBackoffMs, maxBackoffMs. lia.
Qed.

Lemma backoff_multiplier (n : nat) :
  Z.min (Z.min (2 ^ Z.of_nat n) 60 * 2) 60 = Z.min (2 ^ Z.of_nat (S n)) 60.
Proof.
  assert (0 < 2 ^ Z.of_nat n) by (apply Z.pow_pos_nonneg; lia).
  rewrite Nat2Z.inj_succ, Z.pow_succ_r by lia. lia.
Qed.

Variable m0 : HybridSyncManager.


Lemma onSchedule_step (m m' : HybridSyncManager) (n : nat) :
  onSchedule m0 m n -> backoffStep m m' ->
  exists n', (n <= n')%nat /\ onSchedule m0 m' n'.
Proof.
  intros [Hext Hk] [[Hq Hk'] | [He Hk']].
  - exists n. split; [lia |]. split.
    + pose proof (extends_trans m0 m m' _ [] Hext Hq) as Hext'.
      now rewrite app_nil_r in Hext'.
    + congruence.
  - exists (S n). split; [lia |]. split.
    + rewrite backoffSchedule_S, <- backoff_delay, <- Hk.
      exact (extends_trans m0 m m' _ _ Hext He).
    + rewrite Hk', Hk. apply backoff_multiplier.
Qed.

Lemma onSchedule_run (evs : list Event) :
  forall m n,
    forallb (fun ev => negb (isOpen ev)) evs = true ->
    onSchedule m0 m n ->
    exists n', (n <= n')%nat /\ onSchedule m0 (run evs m) n'.
Proof.
  induction evs as [| ev evs IH]; intros m n Hevs Hon; cbn [run fold_left].
  - exists n. split; [lia | exact Hon].
  - cbn [forallb] in Hevs. apply andb_true_iff in Hevs as [Hev Hevs].
    apply negb_true_iff in Hev.
    destruct (onSchedule_step m (handle m ev) n Hon (step_handle ev m Hev))
      as (n1 & Hle1 & Hon1).
    destruct (IH (handle m ev) n1 Hevs Hon1) as (n2 & Hle2 & Hon2).
    exists n2. split; [lia | exact Hon2].
Qed.

Lemma onSchedule_newEffects (m : HybridSyncManager) (n : nat) :
  onSchedule m0 m n ->
  reconnectDelays (newEffects m0 m) = backoffSchedule n.
Proof.
  intros [(es & He & Hd) _]. unfold newEffects.
  now rewrite He, drop_app_length.
Qed.

End Backoff.

Section CloseEvent.
Import Transport.

(** C9, as amended: the manager is enabled.  A close event in the
    connected state, the multiplier reset, leaves the manager
    disconnected and polling, with one polling timer started if none was
    running and none otherwise, and with a reconnect scheduled after the
    base delay.  Until the next successful connect, whatever else
    happens, the reconnect delays scheduled since the close are the
    first terms of [min(base * 2^attempt, maxBackoff)], and the multiplier
    stays at 60 or below. *)
Theorem onclose_reconnect_backoff (m : HybridSyncManager) :
  connectionState m = connected ->
  backoffMultiplier m = 1 ->
  isEnabled m = true ->
  let m' := onclose m in
  connectionState m' = disconnected
  /\ (exists h, pollInterval m' = Some h)
  /\ (forall h, pollInterval m = Some h ->
        pollInterval m' = Some h /\ pollingStarts (newEffects m m') = 0%nat)
  /\ (pollInterval m = None -> pollingStarts (newEffects m m') = 1%nat)
  /\ reconnectDelays (newEffects m m') = [baseBackoffMs]
  /\ forall evs,
       forallb (fun ev => negb (isOpen ev)) evs = true ->
       exists n,
         (1 <= n)%nat
         /\ reconnectDelays (newEffects m (run evs m')) = backoffSchedule n
         /\ backoffMultiplier (run evs m') = Z.min (2 ^ Z.of_nat n) 60
         /\ backoffMultiplier (run evs m') <= 60.
Proof.
  intros Hstate Hk Hen. cbv zeta.
  assert (reconnectDelays (newEffects m (onclose m)) = [baseBackoffMs]
          /\ backoffMultiplier (onclose m) = 2
          /\ connectionState (onclose m) = disconnected
          /\ (exists h, pollInterval (onclose m) = Some h)
          /\ (forall h, pollInterval m = Some h ->
                pollInterval (onclose m) = Some h
                /\ pollingStarts (newEffects m (onclose m)) = 0%nat)
          /\ (pollInterval m = None ->
              pollingStarts (newEffects m (onclose m)) = 1%nat))
    as (Hfirst & Hk' & Hs' & Hp' & Hkeep & Hstart).
  { destruct m as [w p r k s e c effs]. cbn in Hstate, Hk, Hen. subst.
    destruct p as [hp |], r as [hr |];
      cbv [newEffects onclose emit scheduleReconnect startPolling
           clearReconnectTimeout perform setState setWebsocket setPollInterval
           setReconnectTimeout setBackoffMultiplier effects isEnabled negb
           pollInterval reconnectTimeout backoffMultiplier connectionState];
      rewrite <- ?app_assoc, drop_app_length;
      cbn [reconnectDelays pollingStarts app];
      repeat split; eauto; congruence. }
  split; [exact Hs' |].
  split; [exact Hp' |].
  split; [exact Hkeep |].
  split; [exact Hstart |].
  split; [exact Hfirst |].
  intros evs Hevs.
  assert (extends m (onclose m) (backoffSchedule 1)
          /\ backoffMultiplier (onclose m) = Z.min (2 ^ Z.of_nat 1) 60)
    as Hon.
  { split; [| rewrite Hk'; reflexivity].
    destruct (step_handle OnClose m eq_refl) as [[(es & He & Hd) _] | [He _]].
    - unfold newEffects in Hfirst. cbn [handle] in He.
      rewrite He, drop_app_length, Hd in Hfirst. discriminate.
    - rewrite Hk in He. exact He. }
  destruct (onSchedule_run m evs (onclose m) 1%nat Hevs Hon)
    as (n & Hle & Hext & Hmult).
  exists n.
  split; [exact Hle |].
  split; [now apply (onSchedule_newEffects m (run evs (onclose m)) n) |].
  split; [exact Hmult |].
  rewrite Hmult. lia.
Qed.

End CloseEvent.

Section CloseScenarios.
Import Transport Scenario.

Lemma onclose_reconnect_backoff_scenario :
  let m' := onclose connectedEnabled in
  connectionState m' = disconnected
  /\ pollingStarts (newEffects connectedEnabled m') = 1%nat
  /\ reconnectDelays (newEffects connectedEnabled m') = [1000]
  /\ forall evs,
       forallb (fun ev => negb (isOpen ev)) evs = true ->
       exists n,
         (1 <= n)%nat
         /\ reconnectDelays (newEffects connectedEnabled (run evs m'))
            = backoffSchedule n
         /\ backoffMultiplier (run evs m') = Z.min (2 ^ Z.of_nat n) 60
         /\ backoffMultiplier (run evs m') <= 60.
Proof.
  cbv zeta.
  destruct (onclose_reconnect_backoff connectedEnabled eq_refl eq_refl eq_refl)
    as (Hstate & _ & _ & Hstart & Hfirst & Hlater).
  split; [exact Hstate |].
  split; [exact (Hstart eq_refl) |].
  split; [exact Hfirst |].
  exact Hlater.
Defined.

(** C9, as stated, fails when the manager is disabled: it can be connected
    all the same, and a close event then schedules no reconnect. *)
Lemma onclose_disabled_no_reconnect :
  connectionState connectedWhileDisabled = connected
  /\ backoffMultiplier connectedWhileDisabled = 1
  /\ isEnabled connectedWhileDisabled = false
  /\ reconnectDelays
       (newEffects connectedWhileDisabled (onclose connectedWhileDisabled))
     = []
  /\ reconnectTimeout (onclose connectedWhileDisabled) = None.
Proof. vm_compute. repeat split. Qed.

End CloseScenarios.

(** * Further properties *)

(** ** The merge and the table *)

Section MergeOutcome.
Import Merge.

(** X1. The merge never takes a record back in time: on every branch the
    resolved timestamp is at least the existing one.  Either the update
    was rejected, the record is the existing one and the one conflict is
    marked rejected; or the version went up by exactly one and no conflict
    is marked rejected.  No conflict is recorded exactly when the session
    is the same. *)
Theorem resolveConflict_never_goes_back (now : Z) (existing : StoredRecord)
    (incoming : Incoming) :
  let r := resolveConflict now existing incoming in
  lastModified existing <= lastModified (resolved r)
  /\ ((resolved r = existing
       /\ exists c, conflicts r = [c] /\ c_rejected c = Some true)
      \/ (version (resolved r) = version existing + 1
          /\ Forall (fun c => c_rejected c = None) (conflicts r)))
  /\ (conflicts r = [] <-> sessionId existing = in_sessionId incoming).
Proof.
  cbv zeta. unfold resolveConflict.
  destruct (String.eqb_spec (sessionId existing) (in_sessionId incoming))
    as [Hs | Hs].
  - cbn. split; [lia |]. split; [right; split; [reflexivity | constructor] |].
    split; trivial.
  - destruct (Z.ltb_spec (lastModified existing) (in_lastModified incoming))
      as [Hlt | Hge]; cbn.
    + split; [lia |]. split.
      * right. split; [reflexivity |]. repeat constructor.
      * split; [discriminate | contradiction].
    + split; [lia |]. split.
      * left. split; [reflexivity |]. eexists. split; reflexivity.
      * split; [discriminate | contradiction].
Qed.

End MergeOutcome.

Section ProcessRowOutcome.
Import Merge SyncProcessor.

Variable clock : nat -> Z.
Variable t : Table.
Variable cid : string.
Variable row : WireRow.
Variable bid : option string.

Lemma putItem_Some_version (item : StoredRecord) (t' : Table) :
  putItem t item = Some t' ->
  forall cur, t !! (PK item, SK item) = Some cur -> version cur < version item.
Proof.
  unfold putItem. intros Hput cur Hcur. rewrite Hcur in Hput.
  destruct (Z.ltb_spec (version cur) (version item)); [assumption | discriminate].
Qed.

(** A result of [processRow] comes from one attempt whose write went
    through. *)
Lemma processRow_Some_inv (fuel : nat) (t' : Table) (r : RowResult) :
  processRow fuel clock t cid row bid = Some (t', r) ->
  exists n,
    putItem t (fst (mergeRow (clock n) t cid row bid)) = Some t'
    /\ r = {| r_success := true;
             r_pk := generatePK cid (w_host row) (w_date row);
             r_version := version (fst (mergeRow (clock n) t cid row bid));
             r_conflicts := snd (mergeRow (clock n) t cid row bid) |}.
Proof.
  induction fuel as [| fuel IH]; [discriminate |].
  cbn [processRow]. intros Hrun.
  destruct (mergeRow (clock fuel) t cid row bid) as [finalData cs] eqn:Hm.
  destruct (putItem t finalData) as [t1 |] eqn:Hput.
  - injection Hrun as <- <-. exists fuel. rewrite Hm. cbn [fst snd].
    split; [exact Hput | reflexivity].
  - now apply IH.
Qed.

(** X2. What [processRow] returns is never a rejection.  When it returns,
    the result reports success; the item now at the key has the reported
    version; that version is 1 for a new key and the stored version plus
    one otherwise; and a conflict, if any, is a [session_conflict] that is
    not marked rejected. *)
Theorem processRow_result_not_rejected (fuel : nat) (t' : Table)
    (r : RowResult) :
  table_wf t ->
  processRow fuel clock t cid row bid = Some (t', r) ->
  let pk := generatePK cid (w_host row) (w_date row) in
  r_success r = true
  /\ (exists item, getItem t' pk = Some item /\ version item = r_version r)
  /\ match getItem t pk with
     | Some existing => r_version r = version existing + 1
     | None => r_version r = 1
     end
  /\ Forall (fun c => c_type c = session_conflict /\ c_rejected c = None)
            (r_conflicts r).
Proof.
  intros Hwf Hrun. cbv zeta.
  destruct (processRow_Some_inv fuel t' r Hrun) as (n & Hput & ->).
  cbn [r_success r_version r_conflicts].
  destruct (mergeRow_key (clock n) t cid row bid Hwf) as (HPK & HSK & _).
  pose proof (putItem_Some_version _ _ Hput) as Hbelow.
  apply putItem_Some in Hput. rewrite HPK, HSK in Hput, Hbelow.
  split; [reflexivity |]. split.
  { eexists. split; [| reflexivity].
    unfold getItem. rewrite Hput. apply lookup_insert_eq. }
  unfold mergeRow in *. unfold getItem in *.
  destruct (t !! (generatePK cid (w_host row) (w_date row), "data"))
    as [existing |] eqn:Hget; cbn [fst snd] in *.
  - specialize (Hbelow existing eq_refl).
    destruct (resolveConflict_cases (clock n) existing
                (incomingOf (clock n) cid row bid))
      as [(_ & Hver & ->) | [(_ & _ & Hver & _ & c & -> & Hty & Hrej)
                            | (_ & _ & Hsame & _)]].
    + split; [exact Hver | constructor].
    + split; [exact Hver |]. now repeat constructor.
    + rewrite Hsame in Hbelow. lia.
  - split; [reflexivity | constructor].
Qed.

End ProcessRowOutcome.

Section Redelivery.
Import Merge SyncProcessor.

(** An attempt whose write goes through is the last one. *)
Lemma processRow_first_attempt (fuel : nat) (clock : nat -> Z) (t t' : Table)
    (cid : string) (row : WireRow) (bid : option string) :
  putItem t (fst (mergeRow (clock fuel) t cid row bid)) = Some t' ->
  processRow (S fuel) clock t cid row bid
  = Some (t', {| r_success := true;
                 r_pk := generatePK cid (w_host row) (w_date row);
                 r_version :=
                   version (fst (mergeRow (clock fuel) t cid row bid));
                 r_conflicts := snd (mergeRow (clock fuel) t cid row bid) |}).
Proof.
  intros Hput. cbn [processRow].
  destruct (mergeRow (clock fuel) t cid row bid) as [finalData cs].
  cbn [fst snd] in *. now rewrite Hput.
Qed.

(** X3. Delivering a row twice counts it twice.  A row uploaded to a new
    key creates the record at version 1; the same row uploaded again, by
    the same session, is added to it: the stored totals are twice the
    row's and the version is 2, without a conflict. *)
Theorem processRow_redelivery_adds (fuel fuel' : nat) (clock clock' : nat -> Z)
    (t : Table) (cid : string) (row : WireRow) (bid : option string) :
  table_wf t ->
  getItem t (generatePK cid (w_host row) (w_date row)) = None ->
  exists t1 r1 t2 r2 item,
    processRow (S fuel) clock t cid row bid = Some (t1, r1)
    /\ processRow (S fuel') clock' t1 cid row bid = Some (t2, r2)
    /\ r_version r1 = 1
    /\ r_version r2 = 2
    /\ r_conflicts r2 = []
    /\ getItem t2 (generatePK cid (w_host row) (w_date row)) = Some item
    /\ focus item = 2 * orZero (w_focus row)
    /\ time item = 2 * orZero (w_time row).
Proof.
  intros Hwf Hnew. unfold getItem in Hnew.
  set (pk := generatePK cid (w_host row) (w_date row)) in *.
  set (first := newRecord (clock fuel) cid row bid).
  set (t1 := <[(pk, "data") := first]> t).
  assert (mergeRow (clock fuel) t cid row bid = (first, [])) as Hm1.
  { unfold mergeRow, getItem. fold pk. now rewrite Hnew. }
  assert (putItem t first = Some t1) as Hput1.
  { unfold putItem. cbn [PK SK first newRecord]. fold pk. now rewrite Hnew. }
  set (second :=
         {| PK := pk; SK := "data"; clientId := cid; host := w_host row;
            date := w_date row;
            focus := orZero (w_focus row) + orZero (w_focus row);
            time := orZero (w_time row) + orZero (w_time row);
            sessionId := w_sessionId row;
            lastModified :=
              Z.max (orElse (w_lastModified row) (clock fuel))
                    (orElse (w_lastModified row) (clock' fuel'));
            batchId := bid; version := 2;
            ttl := generateTTL (clock' fuel') 7;
            conflictResolution := None |}).
  assert (mergeRow (clock' fuel') t1 cid row bid = (second, [])) as Hm2.
  { unfold mergeRow, getItem. fold pk. unfold t1. rewrite lookup_insert_eq.
    unfold resolveConflict. cbn [sessionId first newRecord in_sessionId incomingOf].
    now rewrite String.eqb_refl. }
  assert (putItem t1 second = Some (<[(pk, "data") := second]> t1)) as Hput2.
  { unfold putItem. cbn [PK SK second]. unfold t1 at 1.
    now rewrite lookup_insert_eq. }
  exists t1, {| r_success := true; r_pk := pk; r_version := 1; r_conflicts := [] |},
    (<[(pk, "data") := second]> t1),
    {| r_success := true; r_pk := pk; r_version := 2; r_conflicts := [] |},
    second.
  split.
  { rewrite (processRow_first_attempt fuel clock t t1 cid row bid);
      rewrite Hm1; [reflexivity | exact Hput1]. }
  split.
  { rewrite (processRow_first_attempt fuel' clock' t1
               (<[(pk, "data") := second]> t1) cid row bid);
      rewrite Hm2; [reflexivity | exact Hput2]. }
  split; [reflexivity |]. split; [reflexivity |]. split; [reflexivity |].
  split; [unfold getItem; apply lookup_insert_eq |].
  cbn [focus time second]. lia.
Qed.

End Redelivery.

(** ** Deduplication and sorting *)

Section DedupFacts.
Import SyncProcessor.

Lemma mapGet_None_keys (key : string) (m : list (string * DataRow)) :
  mapGet key m = None <-> ~ In key (map fst m).
Proof.
  induction m as [| [k x] m IH]; cbn; [tauto |].
  destruct (String.eqb_spec k key) as [-> | Hne].
  - split; [discriminate | intros Hnot; exfalso; apply Hnot; now left].
  - rewrite IH. tauto.
Qed.

Lemma mapGet_Some_In (key : string) (v : DataRow) (m : list (string * DataRow)) :
  mapGet key m = Some v -> In (key, v) m.
Proof.
  induction m as [| [k x] m IH]; cbn; [discriminate |].
  destruct (String.eqb_spec k key) as [-> | Hne].
  - intros [= ->]. now left.
  - intros Hget. right. now apply IH.
Qed.

(** [set] on a present key keeps the keys and their order. *)
Lemma mapSet_present_keys (key : string) (v : DataRow)
    (m : list (string * DataRow)) :
  In key (map fst m) -> map fst (mapSet key v m) = map fst m.
Proof.
  induction m as [| [k x] m IH]; cbn; [contradiction |].
  destruct (String.eqb_spec k key) as [-> | Hne]; [reflexivity |].
  intros [Heq | Hin]; [contradiction |]. cbn. now rewrite IH.
Qed.

Lemma mapSet_In (key : string) (v : DataRow) (m : list (string * DataRow)) :
  forall k x, In (k, x) (mapSet key v m) -> (k, x) = (key, v) \/ In (k, x) m.
Proof.
  induction m as [| [k0 x0] m IH]; cbn; intros k x.
  - intros [Heq | []]. now left.
  - destruct (String.eqb_spec k0 key) as [-> | Hne]; cbn.
    + intros [Heq | Hin]; [now left | right; now right].
    + intros [Heq | Hin]; [right; now left |].
      destruct (IH k x Hin) as [Heq | Hin']; [now left | right; now right].
Qed.

Lemma mapSet_get (key : string) (v : DataRow) (m : list (string * DataRow)) :
  forall k, mapGet k (mapSet key v m)
            = if String.eqb key k then Some v else mapGet k m.
Proof.
  induction m as [| [k0 x0] m IH]; cbn; intros k.
  - reflexivity.
  - destruct (String.eqb_spec k0 key) as [-> | Hne]; cbn.
    + now destruct (String.eqb key k).
    + rewrite IH. destruct (String.eqb_spec k0 k) as [-> | Hne'];
        [| reflexivity].
      destruct (String.eqb_spec key k) as [-> | _]; [contradiction | reflexivity].
Qed.

Lemma jsGt_irrefl (a : option Z) : jsGt a a = false.
Proof. destruct a as [x |]; cbn; [apply Z.ltb_irrefl | reflexivity]. Qed.

Lemma jsGt_trans_false (a b c : option Z) :
  jsGt a b = false -> jsGt c b = true -> jsGt a c = false.
Proof.
  destruct a as [x |], b as [y |], c as [z |]; cbn; try discriminate;
    try reflexivity.
  intros Hab Hcb. apply Z.ltb_ge in Hab. apply Z.ltb_lt in Hcb.
  apply Z.ltb_ge. lia.
Qed.

Lemma dedupStep_inv (seen : list DataRow) (m : list (string * DataRow))
    (row : DataRow) :
  dedupInv seen m -> dedupInv (seen ++ [row]) (dedupStep m row).
Proof.
  intros (Hnd & Hown & Hbest). unfold dedupStep.
  destruct (mapGet (rowKey row) m) as [existing |] eqn:Hget.
  - pose proof (mapGet_Some_In _ _ _ Hget) as Hin.
    assert (In (rowKey row) (map fst m)) as Hkey
      by (apply in_map_iff; exists (rowKey row, existing); now split).
    destruct (jsGt (dl_lastModified row) (dl_lastModified existing)) eqn:Hgt.
    + split; [now rewrite mapSet_present_keys |]. split.
      * intros k x Hkx. apply mapSet_In in Hkx as [[= -> ->] | Hkx].
        -- split; [reflexivity | apply in_or_app; right; now left].
        -- destruct (Hown k x Hkx) as [Hk Hx].
           split; [exact Hk | apply in_or_app; now left].
      * intros r Hr. rewrite mapSet_get.
        apply in_app_or in Hr as [Hr | [<- | []]].
        -- destruct (Hbest r Hr) as (kept & Hkept & Hle).
           destruct (String.eqb_spec (rowKey row) (rowKey r)) as [Heq | _].
           ++ exists row. split; [reflexivity |].
              rewrite <- Heq, Hget in Hkept. injection Hkept as <-.
              exact (jsGt_trans_false _ _ _ Hle Hgt).
           ++ exists kept. now split.
        -- rewrite String.eqb_refl. exists row.
           split; [reflexivity | apply jsGt_irrefl].
    + split; [exact Hnd |]. split.
      * intros k x Hkx. destruct (Hown k x Hkx) as [Hk Hx].
        split; [exact Hk | apply in_or_app; now left].
      * intros r Hr. apply in_app_or in Hr as [Hr | [<- | []]].
        -- now apply Hbest.
        -- exists existing. now split.
  - rewrite (mapSet_fresh _ _ _ Hget). split.
    + rewrite map_app. cbn [map fst].
      apply (Permutation_NoDup (Permutation_cons_append _ _)).
      constructor; [now apply mapGet_None_keys | exact Hnd].
    + split.
      * intros k x Hkx. apply in_app_or in Hkx as [Hkx | [[= <- <-] | []]].
        -- destruct (Hown k x Hkx) as [Hk Hx].
           split; [exact Hk | apply in_or_app; now left].
        -- split; [reflexivity | apply in_or_app; right; now left].
      * intros r Hr. rewrite <- (mapSet_fresh _ row _ Hget), mapSet_get.
        apply in_app_or in Hr as [Hr | [<- | []]].
        -- destruct (Hbest r Hr) as (kept & Hkept & Hle).
           destruct (String.eqb_spec (rowKey row) (rowKey r)) as [Heq | _].
           ++ rewrite <- Heq, Hget in Hkept. discriminate.
           ++ exists kept. now split.
        -- rewrite String.eqb_refl. exists row.
           split; [reflexivity | apply jsGt_irrefl].
Qed.

Lemma dedup_fold_inv (rows : list DataRow) :
  forall seen m,
    dedupInv seen m -> dedupInv (seen ++ rows) (fold_left dedupStep rows m).
Proof.
  induction rows as [| row rows IH]; intros seen m Hinv; cbn [fold_left].
  - now rewrite app_nil_r.
  - replace (seen ++ row :: rows) with ((seen ++ [row]) ++ rows)
      by now rewrite <- app_assoc.
    apply IH. now apply dedupStep_inv.
Qed.

Lemma dedup_inv_rows (rows : list DataRow) :
  dedupInv rows (fold_left dedupStep rows []).
Proof.
  apply (dedup_fold_inv rows [] []). split; [constructor |].
  split; intros; contradiction.
Qed.

Lemma deduplicateRows_keys (rows : list DataRow) :
  List.NoDup (map rowKey (deduplicateRows rows)).
Proof.
  destruct (dedup_inv_rows rows) as (Hnd & Hown & _). unfold deduplicateRows.
  replace (map rowKey (map snd (fold_left dedupStep rows [])))
    with (map fst (fold_left dedupStep rows [])); [exact Hnd |].
  rewrite map_map. apply map_ext_in. intros [k x] Hkx.
  now destruct (Hown k x Hkx).
Qed.

Lemma deduplicateRows_from_input (rows : list DataRow) (row : DataRow) :
  In row (deduplicateRows rows) -> In row rows.
Proof.
  destruct (dedup_inv_rows rows) as (_ & Hown & _). unfold deduplicateRows.
  intros Hrow. apply in_map_iff in Hrow as ([k x] & <- & Hkx).
  now destruct (Hown k x Hkx).
Qed.

(** X4. [deduplicateRows] keeps one row for each key, the latest.  The
    rows returned have distinct keys and are rows of the input; every key
    of the input is kept, with a row that no input row of that key beats:
    when the rows carry their [lastModified], the row kept for a key has
    the greatest one. *)
Theorem deduplicateRows_keeps_latest (rows : list DataRow) :
  List.NoDup (map rowKey (deduplicateRows rows))
  /\ (forall kept, In kept (deduplicateRows rows) -> In kept rows)
  /\ forall row,
       In row rows ->
       exists kept,
         In kept (deduplicateRows rows)
         /\ rowKey kept = rowKey row
         /\ jsGt (dl_lastModified row) (dl_lastModified kept) = false
         /\ forall modified latest,
              dl_lastModified row = Some modified ->
              dl_lastModified kept = Some latest ->
              modified <= latest.
Proof.
  split; [apply deduplicateRows_keys |].
  split; [intros kept; apply deduplicateRows_from_input |].
  intros row Hrow. destruct (dedup_inv_rows rows) as (_ & Hown & Hbest).
  destruct (Hbest row Hrow) as (kept & Hkept & Hle).
  apply mapGet_Some_In in Hkept.
  exists kept. split.
  { unfold deduplicateRows. apply in_map_iff. now exists (rowKey row, kept). }
  split; [symmetry; now apply (Hown _ _ Hkept) |].
  split; [exact Hle |].
  intros modified latest Hm Hx.
  rewrite Hm, Hx in Hle. cbn in Hle. now apply Z.ltb_ge in Hle.
Qed.

End DedupFacts.

Section SortFacts.
Import Merge SyncProcessor.

Lemma insertByDate_perm (row : DataRow) (sorted : list DataRow) :
  Permutation (row :: sorted) (insertByDate row sorted).
Proof.
  induction sorted as [| x sorted IH]; cbn [insertByDate]; [reflexivity |].
  destruct (localeCompare (dl_date row) (dl_date x)); try reflexivity.
  etransitivity; [apply perm_swap |]. now apply perm_skip.
Qed.

Lemma sortByDate_perm (rows : list DataRow) :
  Permutation rows (sortByDate rows).
Proof.
  induction rows as [| row rows IH]; cbn; [reflexivity |].
  etransitivity; [| apply insertByDate_perm]. now apply perm_skip.
Qed.

Lemma insertByDate_HdRel (x row : DataRow) (sorted : list DataRow) :
  dateLe x row -> HdRel dateLe x sorted ->
  HdRel dateLe x (insertByDate row sorted).
Proof.
  intros Hrow Hhd. destruct sorted as [| y sorted]; cbn [insertByDate].
  - now constructor.
  - destruct (localeCompare (dl_date row) (dl_date y)).
    + now constructor.
    + now constructor.
    + constructor. now inversion Hhd.
Qed.

Lemma insertByDate_sorted (row : DataRow) (sorted : list DataRow) :
  Sorted dateLe sorted -> Sorted dateLe (insertByDate row sorted).
Proof.
  induction 1 as [| x sorted Hsorted IH Hhd]; cbn [insertByDate].
  - repeat constructor.
  - destruct (localeCompare (dl_date row) (dl_date x)) eqn:Hcmp.
    + constructor; [now constructor |]. constructor.
      unfold dateLe. rewrite Hcmp. discriminate.
    + constructor; [now constructor |]. constructor.
      unfold dateLe. rewrite Hcmp. discriminate.
    + constructor; [exact IH |].
      apply insertByDate_HdRel; [| exact Hhd].
      unfold dateLe, localeCompare in *.
      rewrite String.compare_antisym, Hcmp. discriminate.
Qed.

Lemma sortByDate_sorted (rows : list DataRow) :
  Sorted dateLe (sortByDate rows).
Proof.
  induction rows as [| row rows IH]; cbn; [constructor |].
  now apply insertByDate_sorted.
Qed.

Variable formatDate : Z -> string.
Variable dateOfYMD : string -> option Z.

(** X5. Whatever the two tiers hold, a download returns its rows in
    ascending order of date, no two of them with the same key, and each of
    them read from a tier within the range asked for: a hot item with the
    sort key [data] whose date lies between the formatted bounds, or, when
    the range starts more than seven days back, an archived record whose
    date lies between the bounds. *)
Theorem downloadData_sorted_in_range (now : Z) (items : list StoredRecord)
    (months : list (list ColdRecord)) (startDate endDate : Z) :
  let out :=
    downloadData formatDate dateOfYMD now items months startDate endDate in
  Sorted dateLe out
  /\ List.NoDup (map rowKey out)
  /\ forall row, In row out ->
       (exists item,
          In item items /\ row = projectHot item /\ SK item = "data"
          /\ String.leb (formatDate startDate) (date item) = true
          /\ String.leb (date item) (formatDate endDate) = true)
       \/ (startDate < now - 604800000
           /\ exists month record instant,
                In month months /\ In record month
                /\ row = projectCold record
                /\ dateOfYMD (cr_date record) = Some instant
                /\ startDate <= instant <= endDate).
Proof.
  cbv zeta. unfold downloadData. cbv zeta.
  set (result := if startDate <? _ then _ else _).
  split; [apply sortByDate_sorted |]. split.
  { apply (Permutation_NoDup
             (Permutation_map rowKey (sortByDate_perm (deduplicateRows result)))).
    apply deduplicateRows_keys. }
  intros row Hrow.
  apply (Permutation_in _ (Permutation_sym (sortByDate_perm _))) in Hrow.
  apply deduplicateRows_from_input in Hrow.
  assert (In row (downloadHotData formatDate items startDate endDate)
          \/ (startDate < now - 604800000
              /\ In row (downloadColdData dateOfYMD months startDate endDate)))
    as [Hhot | [Hold Hcold]].
  { unfold result in Hrow.
    destruct (Z.ltb_spec startDate (now - 7 * 24 * 60 * 60 * 1000))
      as [Hold | _]; [| now left].
    apply in_app_or in Hrow as [Hhot | Hcold]; [now left | right].
    split; [lia | exact Hcold]. }
  - left. unfold downloadHotData in Hhot.
    apply in_map_iff in Hhot as (item & <- & Hitem).
    apply filter_In in Hitem as [Hin Hkeep].
    apply andb_true_iff in Hkeep as [Hkeep Hend].
    apply andb_true_iff in Hkeep as [Hsk Hstart].
    exists item. repeat split; try assumption. now apply String.eqb_eq.
  - right. split; [exact Hold |]. unfold downloadColdData in Hcold.
    apply in_flat_map in Hcold as (month & Hmonth & Hrec).
    apply in_map_iff in Hrec as (record & <- & Hrec).
    apply filter_In in Hrec as [Hin Hkeep]. unfold inRange in Hkeep.
    destruct (dateOfYMD (cr_date record)) as [instant |] eqn:Hdate;
      [| discriminate].
    apply andb_true_iff in Hkeep as [Hlo Hhi].
    exists month, record, instant. repeat split; try assumption; lia.
Qed.

End SortFacts.

(** ** Upload of a batch *)

Section UploadFacts.
Import Merge SyncProcessor.

Lemma grows_refl (t : Table) : grows t t.
Proof. intros k item Hk. exists item. repeat split; [exact Hk | lia]. Qed.

Lemma grows_trans (t1 t2 t3 : Table) : grows t1 t2 -> grows t2 t3 -> grows t1 t3.
Proof.
  intros H12 H23 k item Hk.
  destruct (H12 k item Hk) as (item2 & Hk2 & Hv2 & Hh2 & Hd2).
  destruct (H23 k item2 Hk2) as (item3 & Hk3 & Hv3 & Hh3 & Hd3).
  exists item3. repeat split; [exact Hk3 | lia | congruence | congruence].
Qed.

(** What one processed row does to the table. *)
Lemma processRow_effect (fuel : nat) (clock : nat -> Z) (t t' : Table)
    (cid : string) (row : WireRow) (bid : option string) (r : RowResult) :
  table_wf t ->
  processRow fuel clock t cid row bid = Some (t', r) ->
  let key := (generatePK cid (w_host row) (w_date row), "data") in
  table_wf t'
  /\ grows t t'
  /\ (forall k, k <> key -> t' !! k = t !! k)
  /\ r_success r = true
  /\ r_pk r = fst key.
Proof.
  intros Hwf Hrun. cbv zeta.
  destruct (processRow_Some_inv clock t cid row bid fuel t' r Hrun)
    as (n & Hput & ->).
  destruct (mergeRow_key (clock n) t cid row bid Hwf) as (HPK & HSK & Hframe).
  pose proof (putItem_Some_version t _ _ Hput) as Hbelow.
  apply putItem_Some in Hput. rewrite HPK, HSK in Hput, Hbelow. subst t'.
  split.
  { rewrite <- HPK at 1. rewrite <- HSK. now apply table_wf_insert. }
  split.
  { intros k item Hk.
    destruct (decide (k = (generatePK cid (w_host row) (w_date row), "data")))
      as [-> | Hne].
    - eexists. split; [apply lookup_insert_eq |].
      specialize (Hbelow item Hk). destruct (Hframe item Hk) as [Hh Hd].
      repeat split; [lia | exact Hh | exact Hd].
    - exists item. rewrite lookup_insert_ne by congruence.
      repeat split; [exact Hk | lia]. }
  split.
  { intros k Hne. now rewrite lookup_insert_ne by congruence. }
  split; reflexivity.
Qed.

Lemma setAdd_keeps (x y : string) (members : list string) :
  In y members -> In y (setAdd x members).
Proof.
  intros Hy. unfold setAdd. destruct (existsb _ _); [exact Hy |].
  apply in_or_app. now left.
Qed.

Lemma affected_keeps (y : string) (cs : list ConflictRecord) :
  forall members,
    In y members ->
    In y (fold_left (fun acc c => setAdd (c_clientId c) acc) cs members).
Proof.
  induction cs as [| c cs IH]; intros members Hy; cbn [fold_left];
    [exact Hy |].
  apply IH. now apply setAdd_keeps.
Qed.

(** What the loop over the rows of a batch does. *)
Lemma uploadRows_effect (fuel : nat) (clocks : nat -> nat -> Z)
    (thrown : nat -> option string) (cid : string) (bid : option string)
    (rows : list WireRow) :
  forall i t affected t' results affected',
    table_wf t ->
    uploadRows fuel clocks thrown i t cid bid rows affected
    = Some (t', results, affected') ->
    table_wf t'
    /\ grows t t'
    /\ (forall k, ~ In k (writtenKeys results) -> t' !! k = t !! k)
    /\ length results = length rows
    /\ (forall j row,
          nth_error rows j = Some row ->
          match thrown (i + j)%nat with
          | Some error => nth_error results j = Some (Thrown error row)
          | None =>
              exists result,
                nth_error results j = Some (Processed result)
                /\ r_success result = true
                /\ r_pk result = generatePK cid (w_host row) (w_date row)
          end)
    /\ Forall (fun entry => entrySuccess entry = negb (isThrown entry)) results
    /\ (forall y, In y affected -> In y affected').
Proof.
  induction rows as [| row rows IH];
    intros i t affected t' results affected' Hwf Hrun; cbn [uploadRows] in Hrun.
  - injection Hrun as <- <- <-.
    split; [exact Hwf |]. split; [apply grows_refl |].
    split; [reflexivity |]. split; [reflexivity |].
    split; [intros [| j] row [=] |]. split; [constructor | auto].
  - destruct (thrown i) as [error |] eqn:Hthrown.
    + destruct (uploadRows fuel clocks thrown (S i) t cid bid rows affected)
        as [[[t2 rs] affected2] |] eqn:Hrest; [| discriminate].
      injection Hrun as <- <- <-.
      destruct (IH _ _ _ _ _ _ Hwf Hrest)
        as (Hwf2 & Hgrow2 & Hframe2 & Hlen2 & Hnth2 & Hok2 & Hkeep2).
      split; [exact Hwf2 |]. split; [exact Hgrow2 |].
      split; [exact Hframe2 |].
      split; [cbn [length]; now rewrite Hlen2 |].
      split.
      { intros [| j] row' Hrow'; cbn [nth_error] in *.
        - injection Hrow' as <-. now rewrite Nat.add_0_r, Hthrown.
        - rewrite <- plus_n_Sm. exact (Hnth2 j row' Hrow'). }
      split; [now constructor | exact Hkeep2].
    + destruct (processRow fuel (clocks i) t cid row bid)
        as [[t1 r] |] eqn:Hrow; [| discriminate].
      destruct (uploadRows fuel clocks thrown (S i) t1 cid bid rows _)
        as [[[t2 rs] affected2] |] eqn:Hrest; [| discriminate].
      injection Hrun as <- <- <-.
      destruct (processRow_effect fuel (clocks i) t t1 cid row bid r Hwf Hrow)
        as (Hwf1 & Hgrow1 & Hframe1 & Hok1 & Hpk1).
      destruct (IH _ _ _ _ _ _ Hwf1 Hrest)
        as (Hwf2 & Hgrow2 & Hframe2 & Hlen2 & Hnth2 & Hok2 & Hkeep2).
      split; [exact Hwf2 |].
      split; [exact (grows_trans _ _ _ Hgrow1 Hgrow2) |].
      split.
      { intros k Hk. cbn [writtenKeys flat_map app] in Hk.
        rewrite Hframe2 by (intros Hin; apply Hk; now right).
        apply Hframe1. intros ->. apply Hk. left. now rewrite Hpk1. }
      split; [cbn [length]; now rewrite Hlen2 |].
      split.
      { intros [| j] row' Hrow'; cbn [nth_error] in *.
        - injection Hrow' as <-. rewrite Nat.add_0_r, Hthrown.
          exists r. now repeat split.
        - rewrite <- plus_n_Sm. exact (Hnth2 j row' Hrow'). }
      split; [constructor; [exact Hok1 | exact Hok2] |].
      intros y Hy. apply Hkeep2. now apply affected_keeps.
Qed.

(** Every entry is a success or an entry of the [catch]. *)
Lemma entries_partition (results : list ResultEntry) :
  Forall (fun entry => entrySuccess entry = negb (isThrown entry)) results ->
  (length (List.filter entrySuccess results)
   + length (List.filter isThrown results) = length results)%nat.
Proof.
  induction 1 as [| entry results Hentry _ IH]; [reflexivity |].
  cbn [List.filter]. rewrite Hentry.
  destruct (isThrown entry); cbn [negb length]; lia.
Qed.

Lemma entryError_count (results : list ResultEntry) :
  (length (List.filter entryError results)
   <= length (List.filter isThrown results))%nat.
Proof.
  induction results as [| [result | [| c error] row] results IH];
    cbn [List.filter entryError isThrown length]; lia.
Qed.

Lemma existsb_filter {B : Type} (p : B -> bool) (l : list B) :
  existsb p l = false <-> length (List.filter p l) = 0%nat.
Proof.
  induction l as [| x l IH]; [easy |].
  cbn [existsb List.filter]. destruct (p x); cbn [orb length]; [easy | exact IH].
Qed.

(** X6. An upload never loses what is stored.  A request without a client
    id or without rows is answered with an error and changes nothing.
    Otherwise, when the upload returns, every item of the table is still
    there under the same host and date at a version that is not lower,
    and only the keys of the results returned may have changed.  There
    is one entry per row, in order: for a row on which [processRow]
    threw, the entry of the [catch] with the message and the row, and
    for every other row a successful result under the key of that row.
    The successes and the entries of the [catch] add up to the rows, and
    the failures counted are among the latter.  A notification is sent
    exactly when a row succeeded; it names the uploading client, which
    is among its addressees, and counts the successes. *)
Theorem handleUpload_grows (fuel : nat) (clocks : nat -> nat -> Z)
    (thrown : nat -> option string) (t t' : Table)
    (req : UploadRequest) (resp : UploadResponse)
    (note : option UpdateNotification) :
  table_wf t ->
  handleUpload fuel clocks thrown t req = Some (t', resp, note) ->
  table_wf t'
  /\ grows t t'
  /\ match orString (u_header req) (u_clientId req), u_rows req with
     | Some cid, Some rows =>
         exists body,
           resp = Uploaded body
           /\ (forall k, ~ In k (writtenKeys (b_results body)) ->
                 t' !! k = t !! k)
           /\ b_processed body = length rows
           /\ length (b_results body) = length rows
           /\ (forall i row,
                 nth_error rows i = Some row ->
                 match thrown i with
                 | Some error =>
                     nth_error (b_results body) i = Some (Thrown error row)
                 | None =>
                     exists result,
                       nth_error (b_results body) i = Some (Processed result)
                       /\ r_success result = true
                       /\ r_pk result
                          = generatePK cid (w_host row) (w_date row)
                 end)
           /\ (b_successful body
               + length (List.filter isThrown (b_results body))
               = length rows)%nat
           /\ (b_failed body
               <= length (List.filter isThrown (b_results body)))%nat
           /\ match note with
              | Some n =>
                  (0 < b_successful body)%nat
                  /\ n_clientId n = cid
                  /\ In cid (n_clientIds n)
                  /\ n_batchId n = u_batchId req
                  /\ n_updatedRows n = b_successful body
              | None => b_successful body = 0%nat
              end
     | _, _ => t' = t /\ note = None /\ exists error, resp = BadRequest error
     end.
Proof.
  intros Hwf Hrun. unfold handleUpload in Hrun.
  destruct (orString (u_header req) (u_clientId req)) as [cid |].
  2: { injection Hrun as <- <- <-.
       repeat split; eauto using grows_refl. }
  destruct (u_rows req) as [rows |].
  2: { injection Hrun as <- <- <-.
       repeat split; eauto using grows_refl. }
  destruct (uploadRows fuel clocks thrown 0 t cid (u_batchId req) rows [cid])
    as [[[t1 results] affected] |] eqn:Hrows; [| discriminate].
  injection Hrun as <- <- <-.
  destruct (uploadRows_effect fuel clocks thrown cid (u_batchId req) rows
              0 t [cid] t1 results affected Hwf Hrows)
    as (Hwf1 & Hgrow & Hframe & Hlen & Hnth & Hok & Hkeep).
  split; [exact Hwf1 |]. split; [exact Hgrow |].
  eexists. split; [reflexivity |].
  cbn [b_processed b_successful b_failed b_results].
  split; [exact Hframe |]. split; [exact Hlen |]. split; [exact Hlen |].
  split; [exact Hnth |].
  split; [rewrite <- Hlen; now apply entries_partition |].
  split; [apply entryError_count |].
  destruct (existsb entrySuccess results) eqn:Hsome.
  - cbn [n_clientId n_clientIds n_batchId n_updatedRows].
    split.
    { destruct (length (List.filter entrySuccess results)) eqn:Hzero; [| lia].
      apply existsb_filter in Hzero. congruence. }
    split; [reflexivity |]. split; [apply Hkeep; now left |].
    split; reflexivity.
  - now apply existsb_filter.
Qed.

End UploadFacts.

(** ** The archive *)

Section ObjectFacts.
Import Archive.

Context {A : Type}.

Lemma objGet_set_eq (key : string) (v : A) (o : list (string * A)) :
  objGet key (objSet key v o) = Some v.
Proof.
  induction o as [| [k x] o IH]; cbn.
  - now rewrite String.eqb_refl.
  - destruct (String.eqb k key) eqn:Hk; cbn; now rewrite Hk.
Qed.

Lemma objGet_set_ne (key key' : string) (v : A) (o : list (string * A)) :
  key <> key' -> objGet key' (objSet key v o) = objGet key' o.
Proof.
  intros Hne. induction o as [| [k x] o IH]; cbn.
  - now apply String.eqb_neq in Hne as ->.
  - destruct (String.eqb_spec k key) as [-> | Hk]; cbn.
    + now apply String.eqb_neq in Hne as ->.
    + now rewrite IH.
Qed.

Lemma objGet_None_keys (key : string) (o : list (string * A)) :
  objGet key o = None <-> ~ In key (map fst o).
Proof.
  induction o as [| [k x] o IH]; cbn; [tauto |].
  destruct (String.eqb_spec k key) as [-> | Hne].
  - split; [discriminate | intros Hnot; exfalso; apply Hnot; now left].
  - rewrite IH. tauto.
Qed.

Lemma objSet_keys_present (key : string) (v : A) (o : list (string * A)) :
  In key (map fst o) -> map fst (objSet key v o) = map fst o.
Proof.
  induction o as [| [k x] o IH]; cbn; [contradiction |].
  destruct (String.eqb_spec k key) as [-> | Hne]; [reflexivity |].
  intros [Heq | Hin]; [contradiction |]. cbn. now rewrite IH.
Qed.

Lemma objSet_keys_fresh (key : string) (v : A) (o : list (string * A)) :
  ~ In key (map fst o) -> map fst (objSet key v o) = map fst o ++ [key].
Proof.
  induction o as [| [k x] o IH]; cbn; [reflexivity |].
  destruct (String.eqb_spec k key) as [-> | Hne].
  - intros Hnot. exfalso. apply Hnot. now left.
  - intros Hnot. cbn. rewrite IH; [reflexivity |].
    intros Hin. apply Hnot. now right.
Qed.

Lemma objSet_wf (key : string) (v : A) (o : list (string * A)) :
  obj_wf o -> obj_wf (objSet key v o).
Proof.
  unfold obj_wf. intros Hwf.
  destruct (List.in_dec String.string_dec key (map fst o)) as [Hin | Hnot].
  - now rewrite objSet_keys_present.
  - rewrite objSet_keys_fresh by assumption.
    apply (Permutation_NoDup (Permutation_cons_append _ _)).
    now constructor.
Qed.

Lemma objSet_keys_incl (key : string) (v : A) (o : list (string * A)) :
  forall k, In k (map fst o) -> In k (map fst (objSet key v o)).
Proof.
  intros k Hk.
  destruct (List.in_dec String.string_dec key (map fst o)) as [Hin | Hnot].
  - now rewrite objSet_keys_present.
  - rewrite objSet_keys_fresh by assumption. apply in_or_app. now left.
Qed.

Lemma objSet_key_in (key : string) (v : A) (o : list (string * A)) :
  In key (map fst (objSet key v o)).
Proof.
  destruct (objGet key (objSet key v o)) as [x |] eqn:Hget.
  - destruct (List.in_dec String.string_dec key (map fst (objSet key v o)))
      as [Hin | Hnot]; [exact Hin |].
    apply objGet_None_keys in Hnot. congruence.
  - rewrite objGet_set_eq in Hget. discriminate.
Qed.

(** Two objects with the same keys in the same order and the same value
    under each key are the same object. *)
Lemma obj_ext (o o' : list (string * A)) :
  obj_wf o ->
  map fst o = map fst o' ->
  (forall key, objGet key o = objGet key o') ->
  o = o'.
Proof.
  unfold obj_wf. revert o'.
  induction o as [| [k x] o IH]; intros [| [k' x'] o'] Hwf Hkeys Hget;
    try discriminate; [reflexivity |].
  cbn in Hkeys. injection Hkeys as <- Hkeys.
  cbn in Hwf. apply List.NoDup_cons_iff in Hwf as [Hfresh Hwf].
  pose proof (Hget k) as Hk. cbn in Hk. rewrite String.eqb_refl in Hk.
  injection Hk as <-. f_equal. apply IH; [exact Hwf | exact Hkeys |].
  intros key. specialize (Hget key). cbn in Hget.
  destruct (String.eqb_spec k key) as [Heq | Hne]; [| exact Hget].
  subst key. pose proof Hfresh as Hfresh'. rewrite Hkeys in Hfresh'.
  apply objGet_None_keys in Hfresh, Hfresh'. congruence.
Qed.

End ObjectFacts.

Section MergeItemsFacts.
Import Merge Archive.

Variable clock : nat -> Z.

Local Abbreviation keyOf item := (recordKey (date item) (host item)).

Lemma mergeItemsFrom_snoc (items : list StoredRecord) :
  forall (i : nat) (existingData : Blob) (item : StoredRecord),
    mergeItemsFrom clock i existingData (items ++ [item])
    = objSet (keyOf item) (sweptRecord (clock (i + length items)%nat) item)
             (mergeItemsFrom clock i existingData items).
Proof.
  induction items as [| first items IH]; intros i existingData item;
    cbn [app mergeItemsFrom length].
  - now rewrite Nat.add_0_r.
  - now rewrite IH, Nat.add_succ_comm.
Qed.

Lemma lastWritten_snoc (key : string) (items : list StoredRecord)
    (item : StoredRecord) :
  lastWritten key (items ++ [item])
  = if String.eqb (keyOf item) key then Some item else lastWritten key items.
Proof. unfold lastWritten. now rewrite rev_app_distr. Qed.

(** After the merge a key holds the record of the item written last under
    it, stamped with one of the readings of the clock, and what it held
    before if no item was written under it. *)
Lemma mergeItemsFrom_get (i : nat) (existingData : Blob)
    (items : list StoredRecord) (key : string) :
  match lastWritten key items with
  | Some item =>
      exists n,
        (i <= n < i + length items)%nat
        /\ objGet key (mergeItemsFrom clock i existingData items)
           = Some (sweptRecord (clock n) item)
  | None =>
      objGet key (mergeItemsFrom clock i existingData items)
      = objGet key existingData
  end.
Proof.
  induction items as [| item items IH] using rev_ind; [reflexivity |].
  rewrite mergeItemsFrom_snoc, lastWritten_snoc, length_app.
  cbn [length].
  destruct (String.eqb_spec (keyOf item) key) as [<- | Hne].
  - exists (i + length items)%nat. split; [lia | apply objGet_set_eq].
  - rewrite objGet_set_ne by assumption.
    destruct (lastWritten key items) as [winner |]; [| exact IH].
    destruct IH as (n & Hn & Hget). exists n. split; [lia | exact Hget].
Qed.

Lemma mergeItemsFrom_wf (i : nat) (existingData : Blob)
    (items : list StoredRecord) :
  obj_wf existingData -> obj_wf (mergeItemsFrom clock i existingData items).
Proof.
  induction items as [| item items IH] using rev_ind; [trivial |].
  intros Hwf. rewrite mergeItemsFrom_snoc. apply objSet_wf. now apply IH.
Qed.

Lemma lastWritten_member (items : list StoredRecord) (item : StoredRecord) :
  In item items -> lastWritten (keyOf item) items <> None.
Proof.
  intros Hin Hnone. unfold lastWritten in Hnone.
  apply in_rev in Hin. apply (find_none _ _ Hnone item) in Hin.
  cbn in Hin. now rewrite String.eqb_refl in Hin.
Qed.

Lemma mergeItemsFrom_keys_present (items : list StoredRecord) :
  forall (i : nat) (data : Blob),
    (forall item, In item items -> In (keyOf item) (map fst data)) ->
    map fst (mergeItemsFrom clock i data items) = map fst data.
Proof.
  induction items as [| item items IH]; intros i data Hkeys; [reflexivity |].
  cbn [mergeItemsFrom]. rewrite IH.
  - apply objSet_keys_present. apply Hkeys. now left.
  - intros item' Hin. apply objSet_keys_incl. apply Hkeys. now right.
Qed.

Lemma unstamped_keys (blob : Blob) : map fst (unstamped blob) = map fst blob.
Proof. unfold unstamped. rewrite map_map. now apply map_ext. Qed.

Lemma unstamped_get (key : string) (blob : Blob) :
  objGet key (unstamped blob) = option_map unstamp (objGet key blob).
Proof.
  induction blob as [| [k record] blob IH]; [reflexivity |].
  cbn [unstamped map objGet fst snd]. now destruct (String.eqb k key).
Qed.

End MergeItemsFacts.

Section MergeItemsRepeat.
Import Merge Archive.

Local Abbreviation keyOf item := (recordKey (date item) (host item)).

(** Merging the same items again changes the stamps at most. *)
Lemma mergeItems_repeat (clock clock' : nat -> Z) (existingData : Blob)
    (items : list StoredRecord) :
  obj_wf existingData ->
  unstamped (mergeItems clock' (mergeItems clock existingData items) items)
  = unstamped (mergeItems clock existingData items).
Proof.
  intros Hwf. unfold mergeItems. symmetry. apply obj_ext.
  - unfold obj_wf. rewrite unstamped_keys. now apply mergeItemsFrom_wf.
  - rewrite !unstamped_keys. symmetry.
    apply mergeItemsFrom_keys_present. intros item Hin.
    destruct (List.in_dec String.string_dec (keyOf item)
                (map fst (mergeItemsFrom clock 0 existingData items)))
      as [Hk | Hk]; [exact Hk |].
    apply objGet_None_keys in Hk.
    pose proof (mergeItemsFrom_get clock 0 existingData items (keyOf item))
      as Hget.
    pose proof (lastWritten_member items item Hin) as Hlast.
    destruct (lastWritten (keyOf item) items); [| contradiction].
    destruct Hget as (n & _ & Hget). congruence.
  - intros key. rewrite !unstamped_get.
    pose proof (mergeItemsFrom_get clock 0 existingData items key) as Hfirst.
    pose proof (mergeItemsFrom_get clock' 0
                  (mergeItemsFrom clock 0 existingData items) items key)
      as Hsecond.
    destruct (lastWritten key items) as [winner |].
    + destruct Hfirst as (n & _ & ->), Hsecond as (n' & _ & ->). reflexivity.
    + now rewrite Hsecond.
Qed.

End MergeItemsRepeat.

Section ArchiveFacts.
Import Merge Archive.

Local Abbreviation keyOf item := (recordKey (date item) (host item)).




(** X8. A sweep that is repeated changes the stamps at most.  When the
    items of a month are archived again, as they are if their deletion
    failed, with the blob readable, the second sweep leaves the other
    objects alone and writes a blob with the same keys in the same order
    and, but for the time of archiving, the same records. *)
Theorem archiveMonthData_repeat (clock clock' : nat -> Z)
    (bucket bucket' : Bucket) (cid yearMonth : string)
    (items : list StoredRecord) :
  (forall blob, bucket !! generateMonthlyS3Key cid yearMonth = Some blob ->
                obj_wf blob) ->
  archiveMonthData clock false false bucket cid yearMonth items
  = Some bucket' ->
  exists bucket'' blob blob',
    archiveMonthData clock' false false bucket' cid yearMonth items
    = Some bucket''
    /\ bucket' !! generateMonthlyS3Key cid yearMonth = Some blob
    /\ bucket'' !! generateMonthlyS3Key cid yearMonth = Some blob'
    /\ unstamped blob' = unstamped blob
    /\ forall other,
         other <> generateMonthlyS3Key cid yearMonth ->
         bucket'' !! other = bucket' !! other.
Proof.
  unfold archiveMonthData, readBlob. cbv zeta. intros Hwf [= <-].
  rewrite lookup_insert_eq.
  eexists _, _, _. split; [reflexivity |].
  split; [reflexivity |]. split; [apply lookup_insert_eq |]. split.
  - apply mergeItems_repeat.
    destruct (bucket !! generateMonthlyS3Key cid yearMonth) as [blob |];
      [now apply Hwf | constructor].
  - intros other Hne. now rewrite lookup_insert_ne by congruence.
Qed.

Lemma objSet_In {A : Type} (key : string) (v : A) (o : list (string * A)) :
  In (key, v) (objSet key v o).
Proof.
  induction o as [| [k x] o IH]; cbn; [now left |].
  destruct (String.eqb_spec k key) as [-> | Hne]; [now left | now right].
Qed.

(** X9. What an upload archives comes back from a cold download.  Once
    [archiveToS3] has written a record, the month's blob holds it, and a
    cold read of that blob for a range that contains its date returns its
    host, date, focus and time. *)
Theorem archiveToS3_downloaded (dateOfYMD : string -> option Z)
    (readFails : bool) (bucket : Bucket) (cid : string) (data : StoredRecord)
    (startDate endDate instant : Z) :
  dateOfYMD (date data) = Some instant ->
  startDate <= instant <= endDate ->
  exists blob,
    archiveToS3 readFails false bucket cid data
      !! generateMonthlyS3Key cid (yearMonthOf (date data)) = Some blob
    /\ objGet (keyOf data) blob = Some (uploadedRecord data)
    /\ In (SyncProcessor.projectHot data)
          (SyncProcessor.downloadColdData dateOfYMD [blobValues blob]
             startDate endDate).
Proof.
  intros Hdate Hrange. unfold archiveToS3. cbv zeta.
  eexists. split; [apply lookup_insert_eq |].
  split; [apply objGet_set_eq |].
  unfold SyncProcessor.downloadColdData. cbn [flat_map]. rewrite app_nil_r.
  apply in_map_iff. exists (coldRecordOf (uploadedRecord data)).
  split; [reflexivity |]. apply filter_In. split.
  - unfold blobValues. apply in_map_iff.
    exists (keyOf data, uploadedRecord data). split; [reflexivity |].
    apply objSet_In.
  - unfold SyncProcessor.inRange. cbn [coldRecordOf SyncProcessor.cr_date
      uploadedRecord a_date]. rewrite Hdate.
    apply andb_true_iff. split; apply Z.leb_le; lia.
Qed.





Lemma batchesFrom_spec {A : Type} (fuel : nat) :
  forall items : list A,
    (length items <= fuel)%nat ->
    concat (batchesFrom fuel items) = items
    /\ Forall (fun batch => (1 <= length batch <= 25)%nat)
              (batchesFrom fuel items).
Proof.
  induction fuel as [| fuel IH]; intros items Hlen.
  - destruct items; [| cbn in Hlen; lia]. split; [reflexivity | constructor].
  - destruct items as [| x items]; [split; [reflexivity | constructor] |].
    cbn [batchesFrom].
    destruct (IH (drop 25 (x :: items))) as [Hcat Hall].
    { rewrite length_drop. cbn [length] in *. lia. }
    split.
    + cbn [concat]. rewrite Hcat. apply take_drop.
    + constructor; [| exact Hall].
      rewrite length_take. cbn [length]. lia.
Qed.

(** X11. The deletions after a sweep go in batches that leave no item
    out and respect the limit of a batch write: the batches, put end to
    end, are the items, and each batch has between 1 and 25 of them. *)
Theorem deleteBatches_complete {A : Type} (items : list A) :
  concat (deleteBatches items) = items
  /\ Forall (fun batch => (1 <= length batch <= 25)%nat) (deleteBatches items)
  /\ (items = [] <-> deleteBatches items = []).
Proof.
  destruct (batchesFrom_spec (length items) items (le_n _)) as [Hcat Hall].
  split; [exact Hcat |]. split; [exact Hall |].
  unfold deleteBatches. destruct items as [| x items].
  - split; reflexivity.
  - cbn [length batchesFrom]. split; discriminate.
Qed.

End ArchiveFacts.

(** ** Connections and notification *)

Section ConnectionFacts.
Import Connections.

Lemma scanned_iff (t : ConnTable) (c : ConnectionRecord) :
  In c (map snd (map_to_list t)) <-> exists k, t !! k = Some c.
Proof.
  rewrite in_map_iff. split.
  - intros ([k c'] & <- & Hin). exists k.
    apply list_elem_of_In in Hin. now apply elem_of_map_to_list in Hin.
  - intros [k Hk]. exists (k, c). split; [reflexivity |].
    apply list_elem_of_In. now apply elem_of_map_to_list.
Qed.

(** When the handler sends to a connection. *)
Lemma notify_sent_iff (scanFails : bool)
    (send : ConnectionRecord -> SendOutcome) (t : ConnTable)
    (source : string) (clientIds : list string) (c : ConnectionRecord) :
  In c (sent (notify scanFails send t source clientIds))
  <-> source = "web-time-tracker" /\ scanFails = false
      /\ (exists k, t !! k = Some c) /\ In (clientId c) clientIds.
Proof.
  unfold notify.
  destruct (String.eqb_spec source "web-time-tracker") as [Hsrc | Hsrc];
    cbn [negb]; cbv zeta; cbn [sent].
  - unfold getActiveConnections. destruct scanFails.
    + split; [contradiction | intros (_ & [=] & _)].
    + rewrite filter_In, scanned_iff, existsb_exists. split.
      * intros [Hk (x & Hx & Heq)]. apply String.eqb_eq in Heq.
        repeat split; try assumption. now rewrite Heq.
      * intros (_ & _ & Hk & Hin). split; [exact Hk |].
        exists (clientId c). split; [exact Hin | apply String.eqb_refl].
  - split; [contradiction | intros [Heq _]; contradiction].
Qed.

(** X12. A connection is notified from its connect to its disconnect.
    After a connect that names a client, a notification for that client
    is sent to the connection; after the disconnect no notification is
    sent to it, whatever the ids; and a connect without a client id is
    refused and leaves the table as it was. *)
Theorem connect_notify_disconnect (now now' : Z)
    (send : ConnectionRecord -> SendOutcome) (t : ConnTable)
    (conn cid : string) (query header : option string)
    (clientIds : list string) :
  conn_wf t ->
  SyncProcessor.orString query header = Some cid ->
  In cid clientIds ->
  let t1 := fst (handleConnect now now' false t conn query header) in
  let t2 := fst (handleDisconnect false t1 conn) in
  snd (handleConnect now now' false t conn query header) = 200
  /\ conn_wf t1
  /\ (exists c,
        In c (sent (notify false send t1 "web-time-tracker" clientIds))
        /\ connectionId c = conn /\ clientId c = cid)
  /\ (forall ids c,
        In c (sent (notify false send t2 "web-time-tracker" ids)) ->
        connectionId c <> conn)
  /\ handleConnect now now' false t conn None None = (t, 400).
Proof.
  intros Hwf Hcid Hin. cbv zeta. unfold handleConnect, handleDisconnect.
  rewrite Hcid. cbn [fst snd].
  set (record := {| connectionId := conn; clientId := cid;
                    connectedAt := now; ttl := generateTTL now' 1 |}).
  assert (conn_wf (<[conn := record]> t)) as Hwf1.
  { intros k c Hk. apply lookup_insert_Some in Hk as [[<- <-] | [_ Hk]];
      [reflexivity | now apply Hwf]. }
  split; [reflexivity |]. split; [exact Hwf1 |]. split.
  - exists record. split; [| now split].
    apply notify_sent_iff. repeat split; try assumption.
    exists conn. apply lookup_insert_eq.
  - split; [| reflexivity].
    intros ids c Hc Heq. apply notify_sent_iff in Hc as (_ & _ & [k Hk] & _).
    apply lookup_delete_Some in Hk as [Hne Hk].
    apply Hwf1 in Hk. congruence.
Qed.

End ConnectionFacts.

(** ** The Outbound Queue, further *)

Section CycleConservation.
Import OutboundQueue.

Lemma pendingRows_app (queue queue' : list PendingSync) :
  pendingRows (queue ++ queue') = (pendingRows queue + pendingRows queue')%nat.
Proof.
  unfold pendingRows.
  induction queue as [| batch queue IH]; [reflexivity |].
  cbn [app fold_right]. rewrite IH. lia.
Qed.

Lemma processLoop_conserves (syncBatch : nat -> PendingSync -> bool)
    (now : Z) (queue : list PendingSync) :
  forall attempt processedCount st,
    let r := processLoop syncBatch now attempt processedCount queue st in
    (totalSynced (lr_stats r) + totalFailed (lr_stats r)
     + pendingRows (lr_queue r)
     = totalSynced st + totalFailed st + pendingRows queue)%nat
    /\ (length (lr_queue r) <= length queue)%nat
    /\ (length (lr_calls r) <= length queue)%nat.
Proof.
  induction queue as [| batch rest IH]; intros attempt processedCount st;
    cbn [processLoop]; cbv zeta.
  - cbn. lia.
  - destruct (processedCount <? maxBatches)%nat; [| cbn; lia].
    destruct (syncBatch attempt batch).
    + specialize (IH (S attempt) (S processedCount)
                    (addSynced now (length (rows batch)) st)).
      cbv zeta in IH. cbn [logCall lr_stats lr_queue lr_calls].
      cbn [addSynced totalSynced totalFailed] in IH.
      cbn [pendingRows fold_right length]. fold (pendingRows rest). lia.
    + destruct (maxRetries <=? retryCount (bumpRetry batch))%nat.
      * specialize (IH (S attempt) processedCount
                      (addFailed (length (rows batch)) st)).
        cbv zeta in IH. cbn [logCall lr_stats lr_queue lr_calls].
        cbn [addFailed totalSynced totalFailed] in IH.
        cbn [pendingRows fold_right length]. fold (pendingRows rest). lia.
      * cbn [lr_stats lr_queue lr_calls]. rewrite pendingRows_app, length_app.
        cbn [pendingRows fold_right length bumpRetry rows].
        fold (pendingRows rest). lia.
Qed.

Lemma arrivedRows_app (arrivals arrivals' : list Arrival) :
  arrivedRows (arrivals ++ arrivals')
  = (arrivedRows arrivals + arrivedRows arrivals')%nat.
Proof.
  unfold arrivedRows.
  induction arrivals as [| arrival arrivals IH]; [reflexivity |].
  cbn [app fold_right]. rewrite IH. lia.
Qed.

(** Below the cap a call of [queueForSync] appends to the queue. *)
Lemma queueForSync_appends (now : Z) (bid : string) (rs : list Row)
    (svc : BackgroundSyncService) :
  (length (syncQueue svc) < maxQueueSize)%nat ->
  let svc' := fst (queueForSync now bid rs svc) in
  isEnabled svc' = isEnabled svc
  /\ totalSynced (stats svc') = totalSynced (stats svc)
  /\ totalFailed (stats svc') = totalFailed (stats svc)
  /\ exists extra,
       syncQueue svc' = syncQueue svc ++ extra
       /\ (length extra <= 1)%nat
       /\ pendingRows extra = if isEnabled svc then length rs else 0%nat.
Proof.
  intros Hroom. cbv zeta. unfold queueForSync.
  destruct (isEnabled svc) eqn:Hen; cbn [negb orb].
  - destruct (Nat.eqb_spec (length rs) 0) as [Hnone | Hsome]; cbn [fst].
    + rewrite Hen. repeat split. exists []. rewrite app_nil_r, Hnone.
      split; [reflexivity |]. split; [cbn [length]; lia | reflexivity].
    + cbn [isEnabled stats syncQueue setPendingCount totalSynced totalFailed].
      repeat split. eexists. split.
      * apply dropOldest_within. rewrite length_app. cbn [length]. lia.
      * split; [reflexivity |]. cbn [pendingRows fold_right rows]. lia.
  - cbn [fst]. rewrite Hen. repeat split. exists []. rewrite app_nil_r.
    split; [reflexivity |]. split; [cbn [length]; lia | reflexivity].
Qed.

Lemma enqueueAll_appends (arrivals : list Arrival) :
  forall svc,
    (length (syncQueue svc) + length arrivals <= maxQueueSize)%nat ->
    isEnabled (enqueueAll arrivals svc) = isEnabled svc
    /\ totalSynced (stats (enqueueAll arrivals svc)) = totalSynced (stats svc)
    /\ totalFailed (stats (enqueueAll arrivals svc)) = totalFailed (stats svc)
    /\ exists extra,
         syncQueue (enqueueAll arrivals svc) = syncQueue svc ++ extra
         /\ (length extra <= length arrivals)%nat
         /\ pendingRows extra
            = if isEnabled svc then arrivedRows arrivals else 0%nat.
Proof.
  induction arrivals as [| arrival arrivals IH]; intros svc Hroom.
  - cbn [enqueueAll fold_left]. repeat split. exists [].
    rewrite app_nil_r. cbn [length arrivedRows fold_right pendingRows].
    repeat split; [lia | now destruct (isEnabled svc)].
  - cbn [length] in Hroom.
    change (enqueueAll (arrival :: arrivals) svc)
      with (enqueueAll arrivals
              (fst (queueForSync (ar_now arrival) (ar_bid arrival)
                      (ar_rows arrival) svc))).
    destruct (queueForSync_appends (ar_now arrival) (ar_bid arrival)
                (ar_rows arrival) svc ltac:(lia))
      as (Hen1 & Hs1 & Hf1 & extra1 & Hq1 & Hl1 & Hr1).
    destruct (IH (fst (queueForSync (ar_now arrival) (ar_bid arrival)
                         (ar_rows arrival) svc)))
      as (Hen2 & Hs2 & Hf2 & extra2 & Hq2 & Hl2 & Hr2).
    { rewrite Hq1, length_app. lia. }
    rewrite Hen2, Hen1, Hs2, Hs1, Hf2, Hf1. repeat split.
    exists (extra1 ++ extra2). rewrite Hq2, Hq1, <- app_assoc.
    split; [reflexivity |].
    split; [rewrite length_app; cbn [length]; lia |].
    rewrite pendingRows_app, Hr1, Hr2, Hen1.
    cbn [arrivedRows fold_right]. fold (arrivedRows arrivals).
    now destruct (isEnabled svc).
Qed.

(** The loop loses no row as long as the queue stays within its cap. *)
Lemma processLoopWith_conserves (syncBatch : nat -> PendingSync -> bool)
    (now : Z) (arrivals : list (list Arrival)) :
  forall attempt processedCount svc,
    (length (syncQueue svc) + length (concat arrivals) <= maxQueueSize)%nat ->
    let r := processLoopWith syncBatch now arrivals attempt processedCount svc in
    (totalSynced (lr_stats r) + totalFailed (lr_stats r)
     + pendingRows (lr_queue r)
     = totalSynced (stats svc) + totalFailed (stats svc)
       + pendingRows (syncQueue svc)
       + if isEnabled svc
         then arrivedRows (concat (take (length (lr_calls r)) arrivals))
         else 0)%nat.
Proof.
  induction arrivals as [| during arrivals IH];
    intros attempt processedCount svc Hroom; cbv zeta;
    cbn [processLoopWith].
  - destruct (processLoop_conserves syncBatch now (syncQueue svc) attempt
                processedCount (stats svc)) as (Hsum & _).
    rewrite Hsum, take_nil. cbn [concat arrivedRows fold_right].
    destruct (isEnabled svc); lia.
  - cbn [concat] in Hroom. rewrite length_app in Hroom.
    destruct (syncQueue svc) as [| batch rest] eqn:Hqueue.
    { cbn [lr_stats lr_queue lr_calls length take concat arrivedRows
           fold_right pendingRows].
      destruct (isEnabled svc); lia. }
    destruct (processedCount <? maxBatches)%nat.
    2: { cbn [lr_stats lr_queue lr_calls length take concat arrivedRows
              fold_right].
         destruct (isEnabled svc); lia. }
    cbv zeta.
    destruct (enqueueAll_appends during svc)
      as (Hen & Hsynced & Hfailed & extra & Hq & Hlen & Hrows).
    { rewrite Hqueue. lia. }
    rewrite Hqueue in Hq. cbn [app] in Hq. cbn [length] in Hroom.
    rewrite Hq. cbn [tl].
    assert (forall st,
              (length (syncQueue (withQueue (rest ++ extra) st
                                    (enqueueAll during svc)))
               + length (concat arrivals) <= maxQueueSize)%nat) as Hroom'.
    { intros st. cbn [withQueue syncQueue]. rewrite length_app. lia. }
    cbn [pendingRows fold_right]. fold (pendingRows rest).
    destruct (syncBatch attempt batch).
    + specialize (IH (S attempt) (S processedCount) _
                    (Hroom' (addSynced now (length (rows batch))
                               (stats (enqueueAll during svc))))).
      cbv zeta in IH. cbn [logCall lr_stats lr_queue lr_calls length].
      cbn [withQueue syncQueue stats isEnabled addSynced totalSynced
           totalFailed] in IH.
      rewrite pendingRows_app, Hrows, Hen, Hsynced, Hfailed in IH.
      cbn [take concat]. rewrite arrivedRows_app.
      destruct (isEnabled svc); lia.
    + destruct (maxRetries <=? retryCount (bumpRetry batch))%nat.
      * specialize (IH (S attempt) processedCount _
                      (Hroom' (addFailed (length (rows batch))
                                 (stats (enqueueAll during svc))))).
        cbv zeta in IH. cbn [logCall lr_stats lr_queue lr_calls length].
        cbn [withQueue syncQueue stats isEnabled addFailed totalSynced
             totalFailed] in IH.
        rewrite pendingRows_app, Hrows, Hen, Hsynced, Hfailed in IH.
        cbn [take concat]. rewrite arrivedRows_app.
        destruct (isEnabled svc); lia.
      * cbn [lr_stats lr_queue lr_calls length take concat].
        rewrite take_0. cbn [concat]. rewrite app_nil_r.
        rewrite !pendingRows_app, Hrows, Hsynced, Hfailed.
        cbn [pendingRows fold_right bumpRetry rows].
        destruct (isEnabled svc); lia.
Qed.

(** X13. A cycle loses no row while the queue stays within its cap.
    When the only thing that runs during the deliveries of a cycle is
    [queueForSync], and the queue with the batches so queued stays within
    the cap, then, whatever the deliveries do, the rows counted as
    synced, those counted as failed and those still pending add up to
    what they added up to before plus the rows queued during the
    deliveries made; the processing flag and the enabled flag are left as
    they were found; and without such calls the cycle is [processQueue]. *)
Theorem processQueue_conserves_rows (syncBatch : nat -> PendingSync -> bool)
    (now : Z) (arrivals : list (list Arrival)) (svc : BackgroundSyncService) :
  (length (syncQueue svc) + length (concat arrivals) <= maxQueueSize)%nat ->
  let svc' := fst (processQueueWith syncBatch now arrivals svc) in
  let calls := snd (processQueueWith syncBatch now arrivals svc) in
  (totalSynced (stats svc') + totalFailed (stats svc')
   + pendingRows (syncQueue svc')
   = totalSynced (stats svc) + totalFailed (stats svc)
     + pendingRows (syncQueue svc)
     + if isEnabled svc
       then arrivedRows (concat (take (length calls) arrivals))
       else 0)%nat
  /\ isProcessing svc' = isProcessing svc
  /\ isEnabled svc' = isEnabled svc
  /\ processQueueWith syncBatch now [] svc = processQueue syncBatch now svc.
Proof.
  intros Hroom. cbv zeta.
  assert (processQueueWith syncBatch now [] svc = processQueue syncBatch now svc)
    as Hnil.
  { unfold processQueueWith, processQueue. destruct (_ || _); reflexivity. }
  destruct (isProcessing svc || (length (syncQueue svc) =? 0)%nat
            || negb (isOnline (stats svc))) eqn:Hguard.
  - assert (processQueueWith syncBatch now arrivals svc = (svc, [])) as ->.
    { unfold processQueueWith. now rewrite Hguard. }
    cbn [fst snd length]. rewrite take_0.
    cbn [concat arrivedRows fold_right].
    split; [destruct (isEnabled svc); lia |].
    split; [reflexivity |]. split; [reflexivity | exact Hnil].
  - assert (isProcessing svc = false) as Hbusy.
    { destruct (isProcessing svc); [discriminate | reflexivity]. }
    set (r := processLoopWith syncBatch now arrivals 0 0
                {| isEnabled := isEnabled svc;
                   syncQueue := syncQueue svc;
                   isProcessing := true;
                   stats := stats svc |}).
    assert (processQueueWith syncBatch now arrivals svc
            = ({| isEnabled := isEnabled svc;
                  syncQueue := lr_queue r;
                  isProcessing := false;
                  stats := setPendingCount (length (lr_queue r)) (lr_stats r) |},
               lr_calls r)) as ->.
    { unfold processQueueWith. now rewrite Hguard. }
    cbn [fst snd syncQueue stats isProcessing isEnabled setPendingCount
         totalSynced totalFailed].
    pose proof (processLoopWith_conserves syncBatch now arrivals 0%nat 0%nat
                  {| isEnabled := isEnabled svc;
                     syncQueue := syncQueue svc;
                     isProcessing := true;
                     stats := stats svc |} Hroom) as Hloop.
    cbv zeta in Hloop. fold r in Hloop.
    cbn [isEnabled stats syncQueue] in Hloop.
    split; [exact Hloop |]. split; [now rewrite Hbusy |].
    split; [reflexivity | exact Hnil].
Qed.

End CycleConservation.

Section PersistenceFacts.
Import OutboundQueue.

Lemma filter_all {B : Type} (p : B -> bool) (l : list B) :
  Forall (fun x => p x = true) l -> List.filter p l = l.
Proof.
  induction 1 as [| x l Hx _ IH]; [reflexivity |]. cbn. now rewrite Hx, IH.
Qed.

Lemma queue_ok_filter (p : PendingSync -> bool) (queue : list PendingSync) :
  queue_ok queue -> queue_ok (List.filter p queue).
Proof.
  intros [Hnd Hrc]. split.
  - clear Hrc. induction queue as [| batch queue IH]; [constructor |].
    cbn in Hnd. apply List.NoDup_cons_iff in Hnd as [Hfresh Hnd].
    cbn. destruct (p batch); [| now apply IH].
    cbn. constructor; [| now apply IH].
    intros Hin. apply Hfresh. apply in_map_iff in Hin as (b & Hb & Hin).
    apply filter_In in Hin as [Hin _]. apply in_map_iff. now exists b.
  - apply List.Forall_forall. intros batch Hin.
    apply filter_In in Hin as [Hin _].
    now apply (proj1 (List.Forall_forall _ _) Hrc).
Qed.

(** X14. A queue that is saved and loaded again comes back without its
    stale batches.  After a save of a queue that is not empty, a load
    restores, in order, the batches less than an hour old, with their
    retry counts; it sets the pending count to their number and clears
    the storage, so that a second load changes nothing.  If every batch
    is recent the queue is restored whole, and a queue that was within
    the retry ceiling with distinct ids still is. *)
Theorem save_then_load (saved loaded : Z) (svc svc1 : BackgroundSyncService)
    (storage : option PendingData) :
  syncQueue svc <> [] ->
  let stored := savePendingSyncs saved false svc storage in
  let svc2 := fst (loadPendingSyncs loaded svc1 stored) in
  let stored2 := snd (loadPendingSyncs loaded svc1 stored) in
  syncQueue svc2 = List.filter (isRecent loaded) (syncQueue svc)
  /\ pendingCount (stats svc2) = length (syncQueue svc2)
  /\ stored2 = None
  /\ loadPendingSyncs loaded svc2 stored2 = (svc2, None)
  /\ (Forall (fun batch => loaded - 3600000 < timestamp batch) (syncQueue svc) ->
      syncQueue svc2 = syncQueue svc)
  /\ (queue_ok (syncQueue svc) -> queue_ok (syncQueue svc2)).
Proof.
  intros Hqueue. cbv zeta. unfold savePendingSyncs.
  destruct (syncQueue svc) as [| batch queue] eqn:Hq; [contradiction |].
  cbn [loadPendingSyncs fst snd pd_queue syncQueue stats setPendingCount
       pendingCount].
  split; [reflexivity |]. split; [reflexivity |]. split; [reflexivity |].
  split; [reflexivity |]. split.
  - intros Hrecent. apply filter_all.
    apply List.Forall_forall. intros b Hb.
    apply (proj1 (List.Forall_forall _ _) Hrecent) in Hb.
    unfold isRecent. apply Z.ltb_lt. lia.
  - apply queue_ok_filter.
Qed.

End PersistenceFacts.

Section RemoteMergeFacts.
Import OutboundQueue.

Variable localClientId : string.

Lemma dbGet_accumulate (db : StatDatabase) (host date : string)
    (delta : Result) (h d : string) :
  dbGet (dbAccumulate db host date delta) h d
  = if decide ((host, date) = (h, d))
    then {| res_focus := res_focus (dbGet db host date) + res_focus delta;
            res_time := res_time (dbGet db host date) + res_time delta |}
    else dbGet db h d.
Proof.
  unfold dbAccumulate. cbv zeta. unfold dbGet at 1.
  destruct (decide ((host, date) = (h, d))) as [<- | Hne].
  - now rewrite lookup_insert_eq.
  - now rewrite lookup_insert_ne.
Qed.

(** What one remote row does to the local totals. *)
Lemma mergeRemoteRow_get (db : StatDatabase) (remoteRow : RemoteRow)
    (h d : string) :
  dbGet (mergeRemoteRow localClientId db remoteRow) h d
  = if String.eqb (rr_cid remoteRow) localClientId then dbGet db h d
    else if decide ((rr_host remoteRow, rr_date remoteRow) = (h, d))
    then {| res_focus := Z.max (res_focus (dbGet db h d))
                               (orZero (rr_focus remoteRow));
            res_time := Z.max (res_time (dbGet db h d))
                              (orZero (rr_time remoteRow)) |}
    else dbGet db h d.
Proof.
  unfold mergeRemoteRow. destruct (String.eqb _ _); [reflexivity |].
  cbv zeta.
  destruct (negb _ || negb _) eqn:Hchanged.
  - rewrite dbGet_accumulate.
    destruct (decide _) as [[= <- <-] | Hne]; [| reflexivity].
    cbn [res_focus res_time]. f_equal; lia.
  - apply orb_false_iff in Hchanged as [Hf Ht].
    apply negb_false_iff, Z.eqb_eq in Hf, Ht.
    destruct (decide _) as [[= <- <-] | Hne]; [| reflexivity].
    rewrite Hf, Ht. now destruct (dbGet db _ _).
Qed.

Lemma mergeRemoteRow_covered (db : StatDatabase) (remoteRow : RemoteRow) :
  covers db remoteRow -> mergeRemoteRow localClientId db remoteRow = db.
Proof.
  intros [Hf Ht]. unfold mergeRemoteRow.
  destruct (String.eqb _ _); [reflexivity |]. cbv zeta.
  rewrite !Z.max_l by assumption. now rewrite !Z.eqb_refl.
Qed.

Lemma mergeRemoteRow_mono (db : StatDatabase) (remoteRow : RemoteRow)
    (h d : string) :
  res_focus (dbGet db h d)
    <= res_focus (dbGet (mergeRemoteRow localClientId db remoteRow) h d)
  /\ res_time (dbGet db h d)
     <= res_time (dbGet (mergeRemoteRow localClientId db remoteRow) h d).
Proof.
  rewrite mergeRemoteRow_get. destruct (String.eqb _ _); [lia |].
  destruct (decide _); cbn [res_focus res_time]; lia.
Qed.

Lemma mergeRemoteData_mono (remoteRows : list RemoteRow) :
  forall db h d,
    res_focus (dbGet db h d)
      <= res_focus (dbGet (mergeRemoteData localClientId db remoteRows) h d)
    /\ res_time (dbGet db h d)
       <= res_time (dbGet (mergeRemoteData localClientId db remoteRows) h d).
Proof.
  induction remoteRows as [| r rs IH]; intros db h d; cbn; [lia |].
  pose proof (mergeRemoteRow_mono db r h d).
  pose proof (IH (mergeRemoteRow localClientId db r) h d).
  unfold mergeRemoteData in *. lia.
Qed.

Lemma covers_mono (db db' : StatDatabase) (remoteRow : RemoteRow) :
  (forall h d, res_focus (dbGet db h d) <= res_focus (dbGet db' h d)
               /\ res_time (dbGet db h d) <= res_time (dbGet db' h d)) ->
  covers db remoteRow -> covers db' remoteRow.
Proof.
  intros Hmono [Hf Ht].
  destruct (Hmono (rr_host remoteRow) (rr_date remoteRow)). split; lia.
Qed.

Lemma mergeRemoteData_covers (remoteRows : list RemoteRow) :
  forall db r,
    In r remoteRows -> rr_cid r <> localClientId ->
    covers (mergeRemoteData localClientId db remoteRows) r.
Proof.
  induction remoteRows as [| r0 rs IH]; intros db r Hin Hother;
    [contradiction |].
  cbn [mergeRemoteData fold_left]. fold (mergeRemoteData localClientId).
  change (fold_left _ rs ?x) with (mergeRemoteData localClientId x rs).
  destruct Hin as [-> | Hin]; [| now apply IH].
  apply (covers_mono (mergeRemoteRow localClientId db r)).
  - intros h d. apply mergeRemoteData_mono.
  - unfold covers. rewrite mergeRemoteRow_get.
    apply String.eqb_neq in Hother as ->.
    destruct (decide _) as [_ | Hne]; [| contradiction].
    cbn [res_focus res_time]. lia.
Qed.

Lemma mergeRemoteData_fixed (remoteRows : list RemoteRow) :
  forall db,
    Forall (fun r => rr_cid r = localClientId \/ covers db r) remoteRows ->
    mergeRemoteData localClientId db remoteRows = db.
Proof.
  induction remoteRows as [| r rs IH]; intros db Hall; [reflexivity |].
  apply Forall_cons in Hall as [Hr Hrs].
  cbn [mergeRemoteData fold_left].
  assert (mergeRemoteRow localClientId db r = db) as ->.
  { destruct Hr as [Hown | Hcov]; [| now apply mergeRemoteRow_covered].
    unfold mergeRemoteRow. now apply String.eqb_eq in Hown as ->. }
  now apply IH.
Qed.

(** The totals of a key after the merge were there before or are those of
    a remote row of that key. *)
Lemma mergeRemoteData_attained (remoteRows : list RemoteRow) :
  forall db h d,
    let db' := mergeRemoteData localClientId db remoteRows in
    (res_focus (dbGet db' h d) = res_focus (dbGet db h d)
     \/ exists r, In r remoteRows /\ rr_cid r <> localClientId
                  /\ rr_host r = h /\ rr_date r = d
                  /\ res_focus (dbGet db' h d) = orZero (rr_focus r))
    /\ (res_time (dbGet db' h d) = res_time (dbGet db h d)
        \/ exists r, In r remoteRows /\ rr_cid r <> localClientId
                     /\ rr_host r = h /\ rr_date r = d
                     /\ res_time (dbGet db' h d) = orZero (rr_time r)).
Proof.
  induction remoteRows as [| r0 rs IH]; intros db h d; cbv zeta;
    [split; now left |].
  cbn [mergeRemoteData fold_left].
  change (fold_left _ rs ?x) with (mergeRemoteData localClientId x rs).
  destruct (IH (mergeRemoteRow localClientId db r0) h d) as [Hf Ht].
  cbv zeta in Hf, Ht. rewrite mergeRemoteRow_get in Hf, Ht.
  assert (forall P : RemoteRow -> Prop,
            (exists r, In r rs /\ P r) -> exists r, In r (r0 :: rs) /\ P r)
    as Hweaken by (intros P (r & Hin & HP); exists r; split; [now right | exact HP]).
  destruct (String.eqb_spec (rr_cid r0) localClientId) as [Hown | Hother].
  { split; [destruct Hf as [-> | Hf] | destruct Ht as [-> | Ht]];
      try (now left); right; now apply Hweaken. }
  destruct (decide ((rr_host r0, rr_date r0) = (h, d))) as [[= Hh Hd] | Hne].
  2: { split; [destruct Hf as [-> | Hf] | destruct Ht as [-> | Ht]];
         try (now left); right; now apply Hweaken. }
  cbn [res_focus res_time] in Hf, Ht. split.
  - destruct Hf as [Hf | Hf]; [| right; now apply Hweaken].
    rewrite Hf.
    destruct (Z.max_spec (res_focus (dbGet db h d)) (orZero (rr_focus r0)))
      as [[_ ->] | [_ ->]]; [right | now left].
    exists r0. repeat split; try assumption. now left.
  - destruct Ht as [Ht | Ht]; [| right; now apply Hweaken].
    rewrite Ht.
    destruct (Z.max_spec (res_time (dbGet db h d)) (orZero (rr_time r0)))
      as [[_ ->] | [_ ->]]; [right | now left].
    exists r0. repeat split; try assumption. now left.
Qed.

(** X15. Rows pushed by other clients raise the local totals to theirs and
    no further.  After the merge no total is below what it was; the totals
    of a key are at least those of every row another client sent for it,
    and are either the earlier totals or those of such a row; rows of
    this client change nothing; and merging the same rows again changes
    nothing. *)
Theorem mergeRemoteData_takes_maximum (db : StatDatabase)
    (remoteRows : list RemoteRow) :
  let db' := mergeRemoteData localClientId db remoteRows in
  (forall h d,
     res_focus (dbGet db h d) <= res_focus (dbGet db' h d)
     /\ res_time (dbGet db h d) <= res_time (dbGet db' h d))
  /\ (forall r, In r remoteRows -> rr_cid r <> localClientId -> covers db' r)
  /\ (forall h d,
        res_focus (dbGet db' h d) = res_focus (dbGet db h d)
        \/ exists r, In r remoteRows /\ rr_cid r <> localClientId
                     /\ rr_host r = h /\ rr_date r = d
                     /\ res_focus (dbGet db' h d) = orZero (rr_focus r))
  /\ (Forall (fun r => rr_cid r = localClientId) remoteRows -> db' = db)
  /\ mergeRemoteData localClientId db' remoteRows = db'.
Proof.
  cbv zeta. split; [intros h d; apply mergeRemoteData_mono |].
  split; [intros r; apply mergeRemoteData_covers |].
  split; [intros h d; apply (mergeRemoteData_attained remoteRows db h d) |].
  split.
  - intros Hown. apply mergeRemoteData_fixed.
    apply List.Forall_forall. intros r Hr. left.
    now apply (proj1 (List.Forall_forall _ _) Hown).
  - apply mergeRemoteData_fixed. apply List.Forall_forall. intros r Hr.
    destruct (String.eqb_spec (rr_cid r) localClientId) as [Hown | Hother];
      [now left | right].
    now apply mergeRemoteData_covers.
Qed.

End RemoteMergeFacts.

(** ** The Transport Manager, further *)

Section TimerFacts.
Import Transport.

Lemma pollingStarts_app (es es' : list Effect) :
  pollingStarts (es ++ es') = (pollingStarts es + pollingStarts es')%nat.
Proof.
  induction es as [| e es IH]; [reflexivity |].
  destruct e as [cb ms | h | cb ms | h | | h | st]; cbn; try exact IH.
  destruct cb; cbn; try exact IH. now rewrite IH.
Qed.

Lemma intervalClears_app (es es' : list Effect) :
  intervalClears (es ++ es') = (intervalClears es + intervalClears es')%nat.
Proof.
  induction es as [| e es IH]; [reflexivity |].
  destruct e; cbn; try exact IH. now rewrite IH.
Qed.

Lemma timeoutClears_app (es es' : list Effect) :
  timeoutClears (es ++ es') = (timeoutClears es + timeoutClears es')%nat.
Proof.
  induction es as [| e es IH]; [reflexivity |].
  destruct e; cbn; try exact IH. now rewrite IH.
Qed.

(** Unfolds the handlers on a manager given by its fields, and counts the
    timers among the effects added. *)
Ltac run_handler :=
  cbv [handle onopen onclose onerror reconnectCallback pollCallback setEnabled
       startSync stopSync connectWebSocket scheduleReconnect startPolling
       stopPolling clearReconnectTimeout closeWebSocket emit perform setState
       setWebsocket setPollInterval setReconnectTimeout setBackoffMultiplier
       setIsEnabled hasClientId configured effects isEnabled clientId
       websocket pollInterval reconnectTimeout backoffMultiplier
       connectionState negb andb orb fst snd timers_balanced];
  rewrite ?pollingStarts_app, ?intervalClears_app, ?timeoutClears_app,
    ?reconnectDelays_app, ?length_app;
  cbn [pollingStarts intervalClears timeoutClears reconnectDelays length].

Lemma timers_balanced_handle (m : HybridSyncManager) (ev : Event) :
  timers_balanced m -> timers_balanced (handle m ev).
Proof.
  destruct m as [w p r k s e c effs]. unfold timers_balanced at 1.
  cbn [effects pollInterval reconnectTimeout]. intros [Hpoll Htime].
  destruct ev as [| | | endpoint | closed lucky endpoint | enabled endpoint].
  - destruct p as [hp |]; run_handler; cbn [held] in *; lia.
  - destruct p as [hp |], r as [hr |], e; run_handler; cbn [held] in *; lia.
  - run_handler. lia.
  - destruct e, c as [[| a cs] |], endpoint as [[| b ep] |], r as [hr |];
      run_handler; cbn [held] in *; lia.
  - destruct w as [hw |], closed, lucky, c as [[| a cs] |],
      endpoint as [[| b ep] |]; run_handler; lia.
  - destruct enabled, c as [[| a cs] |], endpoint as [[| b ep] |],
      w as [hw |], p as [hp |], r as [hr |];
      run_handler; cbn [held] in *; lia.
Qed.

(** X16. Timers never pile up.  From a manager just constructed, whatever
    happens, every polling interval set has been cleared but for the one
    the manager holds, and so has every reconnect timer: there is never
    more than one of each. *)
Theorem timers_never_pile_up (cid : option string) (evs : list Event) :
  let m := run evs (initial cid) in
  pollingStarts (effects m)
  = (intervalClears (effects m) + held (pollInterval m))%nat
  /\ length (reconnectDelays (effects m))
     = (timeoutClears (effects m) + held (reconnectTimeout m))%nat
  /\ (pollingStarts (effects m) - intervalClears (effects m) <= 1)%nat
  /\ (length (reconnectDelays (effects m)) - timeoutClears (effects m) <= 1)%nat.
Proof.
  cbv zeta.
  assert (timers_balanced (run evs (initial cid))) as [Hpoll Htime].
  { unfold run. generalize (initial cid) (conj eq_refl eq_refl
      : timers_balanced (initial cid)).
    induction evs as [| ev evs IH]; intros m Hm; cbn [fold_left];
      [exact Hm |].
    apply IH. now apply timers_balanced_handle. }
  split; [exact Hpoll |]. split; [exact Htime |].
  destruct (pollInterval _), (reconnectTimeout _); cbn [held] in *; lia.
Qed.

End TimerFacts.

Section BackoffBounds.
Import Transport.

Lemma backoff_bounded_step (m m' : HybridSyncManager) :
  backoff_bounded m -> backoffStep m m' -> backoff_bounded m'.
Proof.
  intros [Hk Hds] [[(es & He & Hd) Hk'] | [(es & He & Hd) Hk']].
  - split; [now rewrite Hk' |].
    rewrite He, reconnectDelays_app, Hd. now rewrite app_nil_r.
  - split; [rewrite Hk'; lia |].
    rewrite He, reconnectDelays_app, Hd. apply Forall_app. split; [exact Hds |].
    constructor; [| constructor].
    unfold baseBackoffMs, maxBackoffMs. lia.
Qed.

Lemma backoff_bounded_onopen (m : HybridSyncManager) :
  backoff_bounded m -> backoff_bounded (onopen m).
Proof.
  intros [_ Hds]. unfold onopen.
  destruct (quiet_emit true "websocket" None
              (stopPolling (setBackoffMultiplier 1 (setState connected m))))
    as [(es & He & Hd) Hk].
  destruct (quiet_stopPolling (setBackoffMultiplier 1 (setState connected m)))
    as [(es' & He' & Hd') Hk'].
  split.
  - rewrite Hk, Hk'. cbn. lia.
  - rewrite He, He', !reconnectDelays_app, Hd, Hd', !app_nil_r. exact Hds.
Qed.

(** X17. The back-off stays within its bounds.  From a manager just
    constructed, whatever happens, the multiplier is between 1 and 60 and
    every reconnect was scheduled after at least the base delay and at
    most the maximum. *)
Theorem backoff_always_bounded (cid : option string) (evs : list Event) :
  let m := run evs (initial cid) in
  1 <= backoffMultiplier m <= 60
  /\ Forall (fun delay => 1000 <= delay <= 60000) (reconnectDelays (effects m)).
Proof.
  cbv zeta. change (backoff_bounded (run evs (initial cid))).
  assert (backoff_bounded (initial cid)) as Hinit
    by (split; [cbn; lia | constructor]).
  unfold run. revert Hinit. generalize (initial cid).
  induction evs as [| ev evs IH]; intros m Hm; cbn [fold_left]; [exact Hm |].
  apply IH. destruct (isOpen ev) eqn:Hev.
  - destruct ev; try discriminate. now apply backoff_bounded_onopen.
  - exact (backoff_bounded_step m (handle m ev) Hm (step_handle ev m Hev)).
Qed.

Ltac run_onclose :=
  cbv [newEffects onclose emit scheduleReconnect startPolling
       clearReconnectTimeout perform setState setWebsocket setPollInterval
       setReconnectTimeout setBackoffMultiplier effects isEnabled negb
       pollInterval reconnectTimeout backoffMultiplier connectionState];
  rewrite <- ?app_assoc, drop_app_length;
  cbn [reconnectDelays pollingStarts app].

(** A close event on an enabled manager whose multiplier is 1. *)
Lemma onclose_first_delay (m : HybridSyncManager) :
  isEnabled m = true ->
  backoffMultiplier m = 1 ->
  reconnectDelays (newEffects m (onclose m)) = [baseBackoffMs]
  /\ backoffMultiplier (onclose m) = 2.
Proof.
  destruct m as [w p r k s e c effs]. cbn. intros -> ->.
  destruct p as [hp |], r as [hr |]; run_onclose; now split.
Qed.

(** A close event on a disabled manager that is not polling. *)
Lemma onclose_disabled (m : HybridSyncManager) :
  isEnabled m = false ->
  pollInterval m = None ->
  (exists h, pollInterval (onclose m) = Some h)
  /\ pollingStarts (newEffects m (onclose m)) = 1%nat
  /\ reconnectDelays (newEffects m (onclose m)) = []
  /\ reconnectTimeout (onclose m) = reconnectTimeout m.
Proof.
  destruct m as [w p r k s e c effs]. cbn. intros -> ->.
  run_onclose. repeat split. eauto.
Qed.

(** X18. A successful connect resets the back-off.  Whatever the
    multiplier had grown to, and enabled or not, once the socket opens
    the manager is connected and polls no more, with the multiplier back
    at 1; and if it is enabled the next close schedules the reconnect
    after the base delay. *)
Theorem onopen_resets_backoff (m : HybridSyncManager) :
  let opened := onopen m in
  connectionState opened = connected
  /\ pollInterval opened = None
  /\ backoffMultiplier opened = 1
  /\ isEnabled opened = isEnabled m
  /\ (isEnabled m = true ->
      reconnectDelays (newEffects opened (onclose opened)) = [baseBackoffMs]
      /\ backoffMultiplier (onclose opened) = 2).
Proof.
  cbv zeta.
  assert (connectionState (onopen m) = connected
          /\ pollInterval (onopen m) = None
          /\ backoffMultiplier (onopen m) = 1
          /\ isEnabled (onopen m) = isEnabled m) as (Hs & Hp & Hk & Hen).
  { destruct m as [w p r k s e c effs].
    destruct p as [hp |];
      cbv [onopen emit stopPolling perform setState setPollInterval
           setBackoffMultiplier effects isEnabled pollInterval
           backoffMultiplier connectionState];
      now repeat split. }
  split; [exact Hs |]. split; [exact Hp |]. split; [exact Hk |].
  split; [exact Hen |].
  intros Henabled. apply onclose_first_delay; [| exact Hk].
  now rewrite Hen.
Qed.

(** X19. Disabling stops everything, until the socket it closed reports
    its close.  After [setEnabled(false)] the manager is disconnected,
    without socket, polling interval or reconnect timer; the close event
    that follows starts polling again, although the manager is disabled,
    and schedules no reconnect. *)
Theorem setEnabled_false_stops (endpoint : option string)
    (m : HybridSyncManager) :
  let stopped := setEnabled false endpoint m in
  let closed := onclose stopped in
  isEnabled stopped = false
  /\ connectionState stopped = disconnected
  /\ websocket stopped = None
  /\ pollInterval stopped = None
  /\ reconnectTimeout stopped = None
  /\ (exists h, pollInterval closed = Some h)
  /\ pollingStarts (newEffects stopped closed) = 1%nat
  /\ reconnectDelays (newEffects stopped closed) = []
  /\ reconnectTimeout closed = None.
Proof.
  cbv zeta.
  assert (isEnabled (setEnabled false endpoint m) = false
          /\ connectionState (setEnabled false endpoint m) = disconnected
          /\ websocket (setEnabled false endpoint m) = None
          /\ pollInterval (setEnabled false endpoint m) = None
          /\ reconnectTimeout (setEnabled false endpoint m) = None)
    as (Hen & Hs & Hw & Hp & Hr).
  { destruct m as [w p r k s e c effs].
    destruct w as [hw |], p as [hp |], r as [hr |];
      cbv [setEnabled stopSync emit stopPolling clearReconnectTimeout
           closeWebSocket perform setState setWebsocket setPollInterval
           setReconnectTimeout setIsEnabled hasClientId effects isEnabled
           clientId andb websocket pollInterval reconnectTimeout
           backoffMultiplier connectionState];
      now repeat split. }
  destruct (onclose_disabled (setEnabled false endpoint m) Hen Hp)
    as (Hp' & Hstart & Hnone & Hr').
  repeat split; try assumption. now rewrite Hr'.
Qed.

End BackoffBounds.

(** ** Partition keys *)

Section KeyFacts.
Import Keys.

Lemma split_nonempty (sep : ascii) (s : string) : split sep s <> [].
Proof.
  destruct s as [| c s]; cbn; [discriminate |].
  destruct (Ascii.eqb c sep); [discriminate |].
  destruct (split sep s); discriminate.
Qed.

Lemma split_no_sep (sep : ascii) (s : string) :
  contains sep s = false -> split sep s = [s].
Proof.
  induction s as [| c s IH]; cbn; [reflexivity |].
  destruct (Ascii.eqb c sep); [discriminate |]. cbn.
  intros Hs. now rewrite IH.
Qed.

(** The first separator after a piece without one ends the piece. *)
Lemma split_append (sep : ascii) (a b : string) :
  contains sep a = false ->
  split sep (a +:+ String sep b) = a :: split sep b.
Proof.
  induction a as [| c a IH].
  - intros _. change ("" +:+ String sep b) with (String sep b).
    cbn [split]. now rewrite Ascii.eqb_refl.
  - change (String c a +:+ String sep b)
      with (String c (a +:+ String sep b)).
    cbn [split contains].
    destruct (Ascii.eqb c sep); [discriminate |]. cbn [orb].
    intros Ha. now rewrite IH.
Qed.

Lemma generatePK_split (clientId host date : string) :
  contains "#" clientId = false ->
  contains "#" host = false ->
  split "#" (generatePK clientId host date)
  = clientId :: host :: split "#" date.
Proof.
  intros Hc Hh. unfold generatePK.
  change (clientId +:+ "#" +:+ host +:+ "#" +:+ date)
    with (clientId +:+ String "#" (host +:+ String "#" date)).
  now rewrite !split_append.
Qed.

(** The pieces of a string determine it. *)
Lemma split_inj (sep : ascii) (s : string) :
  forall s', split sep s = split sep s' -> s = s'.
Proof.
  induction s as [| c s IH]; intros [| c' s']; cbn [split].
  - reflexivity.
  - pose proof (split_nonempty sep s').
    destruct (Ascii.eqb c' sep), (split sep s');
      try discriminate; contradiction.
  - pose proof (split_nonempty sep s).
    destruct (Ascii.eqb c sep), (split sep s);
      try discriminate; contradiction.
  - destruct (Ascii.eqb_spec c sep) as [-> | Hc],
      (Ascii.eqb_spec c' sep) as [-> | Hc'].
    + intros [= Heq]. f_equal. now apply IH.
    + pose proof (split_nonempty sep s').
      destruct (split sep s'); [contradiction | discriminate].
    + pose proof (split_nonempty sep s).
      destruct (split sep s); [contradiction | discriminate].
    + pose proof (split_nonempty sep s) as Hs.
      pose proof (split_nonempty sep s') as Hs'.
      destruct (split sep s) as [| p ps] eqn:Hsplit; [contradiction |].
      destruct (split sep s') as [| p' ps'] eqn:Hsplit'; [contradiction |].
      intros [= Hcc Hp Hps]. subst c' p' ps'. f_equal. apply IH.
      congruence.
Qed.

(** X20. A partition key can be read back, and distinct rows have
    distinct keys, as long as the client id and the host contain no [#].
    [parsePK] gives back the client id and the host, and the date too if
    it contains no [#]; two keys built from such parts are equal only if
    the parts are. *)
Theorem parsePK_generatePK (clientId host date : string) :
  contains "#" clientId = false ->
  contains "#" host = false ->
  p_clientId (parsePK (generatePK clientId host date)) = Some clientId
  /\ p_host (parsePK (generatePK clientId host date)) = Some host
  /\ (contains "#" date = false ->
      p_date (parsePK (generatePK clientId host date)) = Some date)
  /\ forall clientId' host' date',
       contains "#" clientId' = false ->
       contains "#" host' = false ->
       generatePK clientId host date = generatePK clientId' host' date' ->
       clientId = clientId' /\ host = host' /\ date = date'.
Proof.
  intros Hc Hh. unfold parsePK. cbv zeta.
  rewrite (generatePK_split clientId host date Hc Hh). cbn [nth_error].
  split; [reflexivity |]. split; [reflexivity |]. split.
  - intros Hd. now rewrite (split_no_sep "#" date Hd).
  - intros clientId' host' date' Hc' Hh' Heq.
    apply (f_equal (split "#")) in Heq.
    rewrite (generatePK_split clientId host date Hc Hh),
      (generatePK_split clientId' host' date' Hc' Hh') in Heq.
    injection Heq as -> -> Hd. repeat split. now apply (split_inj "#").
Qed.

End KeyFacts.

(** ** Scenarios of the further properties *)

Section ServerScenarios.
Import Merge SyncProcessor Scenario.

Lemma emptyTable_wf : table_wf emptyTable.
Proof.
  intros k item Hk. unfold emptyTable in Hk.
  now rewrite lookup_empty in Hk.
Qed.

Lemma processRow_sameSession_returns :
  exists t' r,
    processRow 1 serverClock hotTable "c1" rowSameSession (Some "b1")
    = Some (t', r).
Proof.
  apply processRow_accepted_result; [exact hotTable_wf |].
  intros item Hitem. left.
  pose proof hotTable_stored as Hs. cbn in Hs, Hitem.
  rewrite Hs in Hitem. now injection Hitem as <-.
Qed.

Lemma processRow_result_not_rejected_scenario :
  exists t' r,
    processRow 1 serverClock hotTable "c1" rowSameSession (Some "b1")
    = Some (t', r)
    /\ r_success r = true
    /\ Forall (fun c => c_type c = session_conflict /\ c_rejected c = None)
              (r_conflicts r).
Proof.
  destruct processRow_sameSession_returns as (t' & r & Hrun).
  exists t', r. split; [exact Hrun |].
  destruct (processRow_result_not_rejected serverClock hotTable "c1"
              rowSameSession (Some "b1") 1 t' r hotTable_wf Hrun)
    as (Hok & _ & _ & Hconf).
  split; [exact Hok | exact Hconf].
Defined.

Lemma processRow_redelivery_adds_scenario :
  exists t1 r1 t2 r2 item,
    processRow 1 serverClock emptyTable "c1" rowSameSession (Some "b1")
    = Some (t1, r1)
    /\ processRow 1 serverClock t1 "c1" rowSameSession (Some "b1")
       = Some (t2, r2)
    /\ r_version r1 = 1
    /\ r_version r2 = 2
    /\ r_conflicts r2 = []
    /\ getItem t2 "c1#example.com#20250101" = Some item
    /\ focus item = 60
    /\ time item = 20.
Proof.
  apply (processRow_redelivery_adds 0 0 serverClock serverClock emptyTable
           "c1" rowSameSession (Some "b1") emptyTable_wf).
  unfold getItem, emptyTable. apply lookup_empty.
Defined.

Lemma handleUpload_grows_scenario :
  exists t' body n,
    handleUpload 1 (fun _ => serverClock) (fun _ => None) hotTable
      uploadRequest
    = Some (t', Uploaded body, Some n)
    /\ table_wf t'
    /\ grows hotTable t'
    /\ b_processed body = 1%nat
    /\ b_successful body = 1%nat
    /\ n_clientId n = "c1".
Proof.
  destruct processRow_sameSession_returns as (t' & r & Hrun).
  assert (exists resp note,
            handleUpload 1 (fun _ => serverClock) (fun _ => None) hotTable
              uploadRequest
            = Some (t', resp, note)) as (resp & note & Hup).
  { unfold handleUpload, uploadRequest.
    cbn [orString u_header u_clientId u_rows u_batchId uploadRows].
    rewrite Hrun. eauto. }
  destruct (handleUpload_grows 1 (fun _ => serverClock) (fun _ => None)
              hotTable t' uploadRequest resp note hotTable_wf Hup)
    as (Hwf & Hgrows & Hrest).
  cbn [orString u_header u_clientId u_rows uploadRequest] in Hrest.
  destruct Hrest
    as (body & -> & _ & Hlen & Hentries & Hnth & Hcount & _ & Hnote).
  destruct (Hnth 0%nat rowSameSession eq_refl) as (result & Hfirst & _).
  destruct (b_results body) as [| entry [| entry' entries]];
    try discriminate.
  injection Hfirst as ->. cbn in Hcount, Hlen.
  destruct note as [n |]; [| lia].
  destruct Hnote as (_ & Hcid & _).
  exists t', body, n. split; [exact Hup |].
  repeat split; try assumption. lia.
Defined.

(** An upload of which every row throws is answered all the same, with
    the error entries, and sends no notification. *)
Lemma handleUpload_all_thrown :
  handleUpload 1 (fun _ => serverClock) storageDown hotTable uploadRequest
  = Some (hotTable,
          Uploaded {| b_processed := 1;
                      b_successful := 0;
                      b_failed := 1;
                      b_results :=
                        [Thrown "ServiceUnavailable" rowSameSession] |},
          None).
Proof. reflexivity. Qed.

End ServerScenarios.

Section ArchiveScenarios.
Import Merge Archive Scenario.


Lemma emptyBucket_wf (key : string) :
  forall blob, emptyBucket !! key = Some blob -> obj_wf blob.
Proof.
  intros blob Hblob. unfold emptyBucket in Hblob.
  now rewrite lookup_empty in Hblob.
Qed.

Lemma archiveMonthData_repeat_scenario :
  exists bucket' bucket'' blob blob',
    archiveMonthData serverClock false false emptyBucket "c1" "202512"
      hotItems = Some bucket'
    /\ archiveMonthData (fun _ => 3000) false false bucket' "c1" "202512"
         hotItems = Some bucket''
    /\ bucket' !! generateMonthlyS3Key "c1" "202512" = Some blob
    /\ bucket'' !! generateMonthlyS3Key "c1" "202512" = Some blob'
    /\ unstamped blob' = unstamped blob.
Proof.
  eexists.
  destruct (archiveMonthData_repeat serverClock (fun _ => 3000) emptyBucket _
              "c1" "202512" hotItems (emptyBucket_wf _) eq_refl)
    as (bucket'' & blob & blob' & Hrun & Hblob & Hblob' & Hsame & _).
  exists bucket'', blob, blob'.
  split; [reflexivity |]. repeat split; assumption.
Defined.

Lemma archiveToS3_downloaded_scenario :
  exists blob,
    archiveToS3 false false emptyBucket "c1" sweptItem
      !! generateMonthlyS3Key "c1" "202512" = Some blob
    /\ objGet "20251215_example.com" blob = Some (uploadedRecord sweptItem)
    /\ In (SyncProcessor.projectHot sweptItem)
          (SyncProcessor.downloadColdData dateOfYMD [blobValues blob]
             rangeStart rangeEnd).
Proof.
  apply (archiveToS3_downloaded dateOfYMD false emptyBucket "c1" sweptItem
           rangeStart rangeEnd 1765756800000).
  - reflexivity.
  - unfold rangeStart, rangeEnd. lia.
Defined.

End ArchiveScenarios.

Section ConnectionScenarios.
Import Connections Scenario.

Lemma noConnections_wf : conn_wf noConnections.
Proof.
  intros k c Hk. unfold noConnections in Hk.
  now rewrite lookup_empty in Hk.
Qed.

Lemma connect_notify_disconnect_scenario :
  let t1 :=
    fst (handleConnect 2000 2001 false noConnections "conn1" (Some "c1") None)
  in
  let t2 := fst (handleDisconnect false t1 "conn1") in
  snd (handleConnect 2000 2001 false noConnections "conn1" (Some "c1") None)
  = 200
  /\ conn_wf t1
  /\ (exists c,
        In c (sent (notify false allDelivered t1 "web-time-tracker" ["c1"]))
        /\ connectionId c = "conn1" /\ clientId c = "c1")
  /\ (forall ids c,
        In c (sent (notify false allDelivered t2 "web-time-tracker" ids)) ->
        connectionId c <> "conn1")
  /\ handleConnect 2000 2001 false noConnections "conn1" None None
     = (noConnections, 400).
Proof.
  apply (connect_notify_disconnect 2000 2001 allDelivered noConnections
           "conn1" "c1" (Some "c1") None ["c1"]).
  - exact noConnections_wf.
  - reflexivity.
  - left. reflexivity.
Defined.

End ConnectionScenarios.

Section ClientScenarios.
Import OutboundQueue Scenario.

Lemma processQueue_conserves_rows_scenario :
  let svc' :=
    fst (processQueueWith allFail 2000 [[lateArrival]]
           (serviceWith twoBatches)) in
  (totalSynced (stats svc') + totalFailed (stats svc')
   + pendingRows (syncQueue svc') = 3)%nat
  /\ map batchId (syncQueue svc') = ["late"; "second"].
Proof.
  split; [| reflexivity].
  apply (processQueue_conserves_rows allFail 2000 [[lateArrival]]
           (serviceWith twoBatches)).
  cbn [serviceWith syncQueue twoBatches length concat app].
  unfold maxQueueSize. lia.
Defined.

(** At the cap the condition is needed: the call made during the first
    delivery evicts the batch being delivered, and the [shift()] after the
    delivery drops the next batch, which was never delivered; its row is
    neither synced, nor failed, nor pending. *)
Lemma processQueueWith_cap_drops_undelivered :
  let svc' :=
    fst (processQueueWith firstOnly 2000 [[lateArrival]]
           (serviceWith fullQueue)) in
  length fullQueue = maxQueueSize
  /\ pendingRows fullQueue = 1000%nat
  /\ snd (processQueueWith firstOnly 2000 [[lateArrival]]
            (serviceWith fullQueue))
     = [batchOf "old" 0; batchOf "later" 0]
  /\ (totalSynced (stats svc') + totalFailed (stats svc')
      + pendingRows (syncQueue svc') = 1000)%nat.
Proof. vm_compute. repeat split. Qed.

Lemma save_then_load_scenario :
  let stored := savePendingSyncs 2000 false (serviceWith twoBatches) None in
  let svc2 := fst (loadPendingSyncs 3000 (serviceWith []) stored) in
  syncQueue svc2 = twoBatches
  /\ pendingCount (stats svc2) = 2%nat.
Proof.
  destruct (save_then_load 2000 3000 (serviceWith twoBatches) (serviceWith [])
              None) as (Hqueue & Hcount & _).
  - discriminate.
  - split; [exact Hqueue | exact Hcount].
Defined.

End ClientScenarios.

Section KeyScenarios.
Import Keys.

Lemma parsePK_generatePK_scenario :
  p_clientId (parsePK (generatePK "c1" "example.com" "20250101")) = Some "c1"
  /\ p_host (parsePK (generatePK "c1" "example.com" "20250101"))
     = Some "example.com".
Proof.
  destruct (parsePK_generatePK "c1" "example.com" "20250101")
    as (Hcid & Hhost & _).
  - reflexivity.
  - reflexivity.
  - split; [exact Hcid | exact Hhost].
Defined.

End KeyScenarios.
